(** * memcg_priority.bpf.c: page-fault aggregation and the protection window

    A shallow embedding of the BPF program of
    [memcg/multi_tenant_test/bpf_loader/memcg_priority.bpf.c]: the
    tracepoint handler [handle_count_memcg_events], the helper
    [need_protection] and the three struct_ops callbacks
    [below_low_impl], [below_min_impl] and [get_high_delay_ms_impl],
    over the three array maps of the program.

    Unsigned integers are [Z] with the wrap-around written out
    ([U64.add], [U64.sub]); an array map is the list of its
    [max_entries] slots; the programs are written in a small
    reader/state monad whose reader component is the value
    [bpf_ktime_get_ns ()] has during the invocation. *)

From Stdlib Require Import ZArith Lia Bool List Ascii.
From stdpp Require Import base list strings.

Open Scope Z_scope.

(** ** 64-bit unsigned arithmetic *)

Module U64.

Definition modulus : Z := 18446744073709551616.

Definition wrap (x : Z) : Z := x mod modulus.

(** [a + b] and [a - b] on [__u64] operands. *)
Definition add (a b : Z) : Z := wrap (a + b).
Definition sub (a b : Z) : Z := wrap (a - b).

Definition in_range (x : Z) : Prop := 0 <= x < modulus.

End U64.

(** ** Constants, configuration and maps *)

(** [#define ONE_SECOND_NS 1000000000ULL] *)
Definition ONE_SECOND_NS : Z := 1000000000.

(** [struct memcg_priority_config]: [__u64 high_cgroup_id], [__u64 threshold],
    [__u32 over_high_ms], [__u8 use_below_low], [__u8 use_below_min]. *)
Record memcg_priority_config : Type := {
  high_cgroup_id : Z;
  threshold : Z;
  over_high_ms : Z;
  use_below_low : Z;
  use_below_min : Z
}.

(** The fields hold values of their C types. *)
Definition wf_config (c : memcg_priority_config) : Prop :=
  0 <= high_cgroup_id c < 2 ^ 64 /\
  0 <= threshold c < 2 ^ 64 /\
  0 <= over_high_ms c < 2 ^ 32 /\
  0 <= use_below_low c < 2 ^ 8 /\
  0 <= use_below_min c < 2 ^ 8.

(** [struct AggregationData] *)
Record AggregationData : Type := {
  sum : Z;
  window_start_ts : Z
}.

(** The three [BPF_MAP_TYPE_ARRAY] maps; each is the list of its slots. *)
Record maps : Type := {
  aggregation_map : list AggregationData;
  trigger_ts_map : list Z;
  stats : list Z
}.

Definition set_aggregation_map (f : list AggregationData -> list AggregationData)
    (m : maps) : maps :=
  {| aggregation_map := f (aggregation_map m);
     trigger_ts_map := trigger_ts_map m;
     stats := stats m |}.

Definition set_trigger_ts_map (f : list Z -> list Z) (m : maps) : maps :=
  {| aggregation_map := aggregation_map m;
     trigger_ts_map := f (trigger_ts_map m);
     stats := stats m |}.

Definition set_stats (f : list Z -> list Z) (m : maps) : maps :=
  {| aggregation_map := aggregation_map m;
     trigger_ts_map := trigger_ts_map m;
     stats := f (stats m) |}.

(** An array map is created with all its [max_entries] slots zeroed:
    1, 1 and 4 slots. *)
Definition initial_maps : maps :=
  {| aggregation_map := [ {| sum := 0; window_start_ts := 0 |} ];
     trigger_ts_map := [ 0 ];
     stats := [ 0; 0; 0; 0 ] |}.

(** The number of slots never changes. *)
Definition wf_maps (m : maps) : Prop :=
  length (aggregation_map m) = 1%nat /\
  length (trigger_ts_map m) = 1%nat /\
  length (stats m) = 4%nat.

(** [enum { STAT_HIGH_DELAY_CALLS = 0, ... }] *)
Definition STAT_HIGH_DELAY_CALLS : Z := 0.
Definition STAT_HIGH_DELAY_ACTIVE : Z := 1.
Definition STAT_BELOW_LOW_CALLS : Z := 2.
Definition STAT_BELOW_LOW_ACTIVE : Z := 3.

(** Modelled from the spec: [vmlinux.h], which declares
    [struct trace_event_raw_memcg_rstat_events], is not part of the sources.
    The handler reads three fields of it, [ctx->id], [ctx->item] and
    [ctx->val]; the spec gives them as a group id ([u64]), an event kind and
    a value ([u64]). *)
Record trace_event_raw_memcg_rstat_events : Type := {
  ctx_id : Z;
  ctx_item : Z;
  ctx_val : Z
}.

(** [PGFAULT = 23 in the kernel enum] *)
Definition PGFAULT : Z := 23.

(** An event the handler counts: a page fault of the HIGH cgroup. *)
Definition relevant (c : memcg_priority_config)
    (ctx : trace_event_raw_memcg_rstat_events) : Prop :=
  ctx_id ctx = high_cgroup_id c /\ ctx_item ctx = PGFAULT.

(** ** The monad of a program invocation

    A program reads the clock at most once; [bpf A] takes the value
    [bpf_ktime_get_ns ()] returns and the maps, and gives the result and the
    maps. *)

Definition bpf (A : Type) : Type := Z -> maps -> A * maps.

Definition ret {A} (a : A) : bpf A := fun _ m => (a, m).

Definition bind {A B} (c : bpf A) (k : A -> bpf B) : bpf B :=
  fun t m => let (a, m') := c t m in k a t m'.

Notation "x <- c ;; k" := (bind c (fun x => k))
  (at level 100, c at next level, right associativity).
Notation "c ;;; k" := (bind c (fun _ => k))
  (at level 100, right associativity).

Definition bpf_ktime_get_ns : bpf Z := fun t m => (t, m).

(** [bpf_map_lookup_elem (&map, &key)] followed by the reads through the
    pointer: the slot at [key], [None] for the NULL a key out of range gives. *)
Definition bpf_map_lookup_elem {V} (map : maps -> list V) (key : Z) : bpf (option V) :=
  fun _ m => (map m !! Z.to_nat key, m).

(** Writes through the pointer [data] into slot [key] of [aggregation_map]. *)
Definition store_aggregation (key : Z) (data : AggregationData) : bpf unit :=
  fun _ m => (tt, set_aggregation_map (<[Z.to_nat key := data]>) m).

(** [bpf_map_update_elem (&trigger_ts_map, &key, &value, BPF_ANY)]; the
    error a key out of range gives is ignored by the caller. *)
Definition update_trigger_ts (key : Z) (value : Z) : bpf unit :=
  fun _ m => (tt, set_trigger_ts_map (<[Z.to_nat key := value]>) m).

(** [cnt = bpf_map_lookup_elem (&stats, &key); if (cnt) __sync_fetch_and_add (cnt, 1);] *)
Definition stat_fetch_and_add (key : Z) (v : Z) : bpf unit :=
  fun _ m =>
    match stats m !! Z.to_nat key with
    | Some cnt => (tt, set_stats (<[Z.to_nat key := U64.add cnt v]>) m)
    | None => (tt, m)
    end.

(** ** The programs *)

(** Lines 85-90 of the handler: the window after the event is counted. *)
Definition accumulate (data : AggregationData) (current_ts val : Z) : AggregationData :=
  if U64.sub current_ts (window_start_ts data) <? ONE_SECOND_NS
  then {| sum := U64.add (sum data) val;
          window_start_ts := window_start_ts data |}
  else {| sum := val; window_start_ts := current_ts |}.

(** [static __always_inline bool need_protection (void)] *)
Definition need_protection : bpf bool :=
  let key := 0 in
  trigger_ts <- bpf_map_lookup_elem trigger_ts_map key ;;
  match trigger_ts with
  | None => ret false
  | Some ts =>
      if ts =? 0 then ret false
      else
        current_ts <- bpf_ktime_get_ns ;;
        ret (U64.sub current_ts ts <? ONE_SECOND_NS)
  end.

Section Programs.

(** [local_config], set by userspace before attaching. *)
Variable local_config : memcg_priority_config.

(** The guard of line 75. *)
Definition not_of_interest (ctx : trace_event_raw_memcg_rstat_events) : bool :=
  negb (ctx_id ctx =? high_cgroup_id local_config) || negb (ctx_item ctx =? 23).

(** [SEC ("tp/memcg/count_memcg_events")] *)
Definition handle_count_memcg_events
    (ctx : trace_event_raw_memcg_rstat_events) : bpf Z :=
  let key := 0 in
  if not_of_interest ctx then ret 0
  else
    data <- bpf_map_lookup_elem aggregation_map key ;;
    match data with
    | None => ret 0
    | Some data =>
        current_ts <- bpf_ktime_get_ns ;;
        let data := accumulate data current_ts (ctx_val ctx) in
        store_aggregation key data ;;;
        if threshold local_config <? sum data
        then
          update_trigger_ts key current_ts ;;;
          store_aggregation key {| sum := 0; window_start_ts := current_ts |} ;;;
          ret 0
        else ret 0
    end.

(** [SEC ("struct_ops/below_low")]; the [memcg] argument is not used. *)
Definition below_low_impl : bpf bool :=
  stat_fetch_and_add STAT_BELOW_LOW_CALLS 1 ;;;
  if use_below_low local_config =? 0 then ret false
  else
    active <- need_protection ;;
    if active
    then stat_fetch_and_add STAT_BELOW_LOW_ACTIVE 1 ;;; ret true
    else ret false.

(** [SEC ("struct_ops/below_min")] *)
Definition below_min_impl : bpf bool :=
  if use_below_min local_config =? 0 then ret false
  else need_protection.

(** [SEC ("struct_ops/get_high_delay_ms")] *)
Definition get_high_delay_ms_impl : bpf Z :=
  stat_fetch_and_add STAT_HIGH_DELAY_CALLS 1 ;;;
  if negb (over_high_ms local_config =? 0)
  then
    active <- need_protection ;;
    if active
    then stat_fetch_and_add STAT_HIGH_DELAY_ACTIVE 1 ;;; ret (over_high_ms local_config)
    else ret 0
  else ret 0.

End Programs.

(** ** Sequences of invocations

    The kernel runs the four programs in some order; an invocation is the
    program, its argument and the clock value it sees. *)

Inductive call : Type :=
| CountMemcgEvents (ctx : trace_event_raw_memcg_rstat_events)
| BelowLow
| BelowMin
| GetHighDelayMs.

Inductive retval : Type :=
| RInt (r : Z)
| RBool (b : bool)
| RUint (d : Z).

Definition invoke (cfg : memcg_priority_config) (c : call) : bpf retval :=
  match c with
  | CountMemcgEvents ctx => r <- handle_count_memcg_events cfg ctx ;; ret (RInt r)
  | BelowLow => b <- below_low_impl cfg ;; ret (RBool b)
  | BelowMin => b <- below_min_impl cfg ;; ret (RBool b)
  | GetHighDelayMs => d <- get_high_delay_ms_impl cfg ;; ret (RUint d)
  end.

(** Runs the invocations one after the other; gives what each returned and
    the maps at the end. *)
Fixpoint run (cfg : memcg_priority_config) (tr : list (Z * call)) (m : maps)
    : list (call * retval) * maps :=
  match tr with
  | [] => ([], m)
  | (t, c) :: tr' =>
      let (r, m') := invoke cfg c t m in
      let (log, m'') := run cfg tr' m' in
      ((c, r) :: log, m'')
  end.

(** The calls each counter is meant to count. *)
Definition is_high_delay_call (e : call * retval) : bool :=
  match e with
  | (GetHighDelayMs, _) => true
  | _ => false
  end.

Definition is_high_delay_active (e : call * retval) : bool :=
  match e with
  | (GetHighDelayMs, RUint d) => negb (d =? 0)
  | _ => false
  end.

Definition is_below_low_call (e : call * retval) : bool :=
  match e with
  | (BelowLow, _) => true
  | _ => false
  end.

Definition is_below_low_active (e : call * retval) : bool :=
  match e with
  | (BelowLow, RBool b) => b
  | _ => false
  end.

Fixpoint count (p : call * retval -> bool) (log : list (call * retval)) : Z :=
  match log with
  | [] => 0
  | e :: log' => (if p e then 1 else 0) + count p log'
  end.

(** Whether an invocation is a threshold crossing: the handler counts the
    event and finds the sum above the threshold (line 93). *)
Definition crosses (cfg : memcg_priority_config) (c : call) (t : Z) (m : maps)
    : bool :=
  match c with
  | CountMemcgEvents ctx =>
      negb (not_of_interest cfg ctx) &&
      match aggregation_map m !! 0%nat with
      | Some data => threshold cfg <? sum (accumulate data t (ctx_val ctx))
      | None => false
      end
  | _ => false
  end.

(** The clock values of the crossings of a sequence, oldest first. *)
Fixpoint crossings (cfg : memcg_priority_config) (tr : list (Z * call))
    (m : maps) : list Z :=
  match tr with
  | [] => []
  | (t, c) :: tr' =>
      (if crosses cfg c t m then [t] else [])
      ++ crossings cfg tr' (snd (invoke cfg c t m))
  end.

(** A counter after a call: one more when the call is one it counts. *)
Definition bump (c : Z) (b : bool) : Z := if b then U64.add c 1 else c.

(** The spec's [ProtectionState.trigger_timestamp : Timestamp | None], read
    off slot 0 of [trigger_ts_map]: the zero the map is created with stands
    for [None]. *)
Definition trigger_timestamp (m : maps) : option Z :=
  match trigger_ts_map m !! 0%nat with
  | Some ts => if ts =? 0 then None else Some ts
  | None => None
  end.

(** The spec's [is_protection_active] at clock value [now]. *)
Definition is_protection_active (now : Z) (m : maps) : bool :=
  fst (need_protection now m).

(** ** Sample inputs *)

Definition sample_config : memcg_priority_config :=
  {| high_cgroup_id := 42; threshold := 10; over_high_ms := 2000;
     use_below_low := 1; use_below_min := 1 |}.

Definition page_fault (val : Z) : trace_event_raw_memcg_rstat_events :=
  {| ctx_id := 42; ctx_item := 23; ctx_val := val |}.

(** ** Ranges, deliveries and event-only sequences *)

(** Every value the maps store is a [__u64] value. *)
Definition range_maps (m : maps) : Prop :=
  Forall (fun d => U64.in_range (sum d) /\ U64.in_range (window_start_ts d))
         (aggregation_map m) /\
  Forall U64.in_range (trigger_ts_map m) /\
  Forall U64.in_range (stats m).

(** The clock value and the event value of an invocation are [__u64]
    values. *)
Definition input_in_range (e : Z * call) : Prop :=
  U64.in_range (fst e) /\
  match snd e with
  | CountMemcgEvents ctx => U64.in_range (ctx_val ctx)
  | _ => True
  end.

(** The invocations of the handler that deliver the events [evs], each
    with the clock value it is delivered at. *)
Definition deliver (evs : list (Z * trace_event_raw_memcg_rstat_events))
    : list (Z * call) :=
  map (fun e => (fst e, CountMemcgEvents (snd e))) evs.

Fixpoint total_val (evs : list (Z * trace_event_raw_memcg_rstat_events)) : Z :=
  match evs with
  | [] => 0
  | e :: evs' => ctx_val (snd e) + total_val evs'
  end.

(** The invocations of the handler among those of a sequence. *)
Definition is_event (e : Z * call) : bool :=
  match snd e with
  | CountMemcgEvents _ => true
  | _ => false
  end.

Fixpoint events_only (tr : list (Z * call)) : list (Z * call) :=
  match tr with
  | [] => []
  | e :: tr' => if is_event e then e :: events_only tr' else events_only tr'
  end.

(** * memcg_priority.c: the loader

    [main] reads its options, opens the cgroups, opens, configures, loads
    and attaches the BPF programs, reports the counters until a signal and
    releases what it holds. The C library, the system and libbpf are outside
    the program: [getopt_long] is taken by the sequence of option characters
    and arguments it hands to the loop, [atoi] and [strtoull] are parameters,
    and the calls into the system and libbpf take their results from an
    [env] and are recorded, with their results, as [event]s. What the
    program writes to [stdout] and [stderr] is left out. *)

Definition MAX_LOW_CGROUPS : Z := 16.
Definition DEFAULT_DELAY_MS : Z := 2000.
Definition DEFAULT_THRESHOLD : Z := 1.

(** A character constant, the [int] it is in C. *)
Definition chr (c : ascii) : Z := Z.of_N (N_of_ascii c).

(** Conversions to [__u32] and [__u8] on assignment. *)
Definition to_u32 (x : Z) : Z := x mod 2 ^ 32.
Definition to_u8 (x : Z) : Z := x mod 2 ^ 8.

(** The variables of [main] the option loop sets: [high_path] ([None] for
    NULL), the [low_count] first entries of [low_paths] ([low_count] is the
    length of the list), [delay_ms], [threshold], [use_below_low],
    [use_below_min] and [verbose]. *)
Record options : Type := {
  opt_high_path : option string;
  opt_low_paths : list string;
  opt_delay_ms : Z;
  opt_threshold : Z;
  opt_use_below_low : Z;
  opt_use_below_min : Z;
  opt_verbose : Z
}.

(** The initialisers of lines 124-130. *)
Definition default_options : options :=
  {| opt_high_path := None;
     opt_low_paths := [];
     opt_delay_ms := DEFAULT_DELAY_MS;
     opt_threshold := DEFAULT_THRESHOLD;
     opt_use_below_low := 0;
     opt_use_below_min := 0;
     opt_verbose := 0 |}.

(** How the option loop ends: a [return] of [main], or the variables when
    [getopt_long] has returned -1. *)
Inductive parse_result : Type :=
| ParseReturn (code : Z)
| ParseDone (o : options).

Inductive signum : Type := SIGINT | SIGTERM.

(** The calls into the system and libbpf, with what they were given and
    what they returned; pointers are numbers, 0 for NULL. *)
Inductive event : Type :=
| EvSignal (sig : signum)
| EvSetPrint
| EvOpen (path : string) (fd : Z)
| EvSkelOpen (skel : Z)
| EvStat (path : string)
| EvSkelLoad (cfg : memcg_priority_config) (err : Z)
| EvAttachProgram (link : Z)
| EvFindMap (name : string) (ops_map : Z)
| EvAttachStructOps (ops_map : Z) (relative_fd : Z) (link : Z)
| EvLookupStats (key : Z)
| EvSleep
| EvLinkDestroy (link : Z)
| EvSkelDestroy (skel : Z)
| EvClose (fd : Z).

(** What the system and libbpf answer. [open] and
    [bpf_map__attach_struct_ops_opts] are called several times and answer
    by the number of the call. [signals] is the number of turns of the
    reporting loop that find [running] set. *)
Record env : Type := {
  sys_open : nat -> string -> Z;
  sys_stat : string -> option Z;
  skel_open : Z;
  skel_load : Z;
  attach_program : Z;
  find_map : string -> Z;
  attach_struct_ops : nat -> Z -> Z -> Z;
  signals : nat
}.

(** The variables of [main] that hold resources, [err], and
    [skel->bss->local_config]. *)
Record vars : Type := {
  skel : Z;
  bss_local_config : memcg_priority_config;
  high_link : Z;
  low_links : list Z;
  tp_link : Z;
  ops_map : Z;
  high_fd : Z;
  low_fds : list Z;
  err : Z
}.

Definition initial_vars : vars :=
  {| skel := 0;
     bss_local_config :=
       {| high_cgroup_id := 0; threshold := 0; over_high_ms := 0;
          use_below_low := 0; use_below_min := 0 |};
     high_link := 0;
     low_links := replicate (Z.to_nat MAX_LOW_CGROUPS) 0;
     tp_link := 0;
     ops_map := 0;
     high_fd := -1;
     low_fds := replicate (Z.to_nat MAX_LOW_CGROUPS) (-1);
     err := 0 |}.

Definition set_skel (x : Z) (v : vars) : vars :=
  {| skel := x; bss_local_config := bss_local_config v;
     high_link := high_link v; low_links := low_links v; tp_link := tp_link v;
     ops_map := ops_map v; high_fd := high_fd v; low_fds := low_fds v;
     err := err v |}.

Definition set_bss_local_config (x : memcg_priority_config) (v : vars) : vars :=
  {| skel := skel v; bss_local_config := x;
     high_link := high_link v; low_links := low_links v; tp_link := tp_link v;
     ops_map := ops_map v; high_fd := high_fd v; low_fds := low_fds v;
     err := err v |}.

Definition set_high_link (x : Z) (v : vars) : vars :=
  {| skel := skel v; bss_local_config := bss_local_config v;
     high_link := x; low_links := low_links v; tp_link := tp_link v;
     ops_map := ops_map v; high_fd := high_fd v; low_fds := low_fds v;
     err := err v |}.

Definition set_low_links (f : list Z -> list Z) (v : vars) : vars :=
  {| skel := skel v; bss_local_config := bss_local_config v;
     high_link := high_link v; low_links := f (low_links v); tp_link := tp_link v;
     ops_map := ops_map v; high_fd := high_fd v; low_fds := low_fds v;
     err := err v |}.

Definition set_tp_link (x : Z) (v : vars) : vars :=
  {| skel := skel v; bss_local_config := bss_local_config v;
     high_link := high_link v; low_links := low_links v; tp_link := x;
     ops_map := ops_map v; high_fd := high_fd v; low_fds := low_fds v;
     err := err v |}.

Definition set_ops_map (x : Z) (v : vars) : vars :=
  {| skel := skel v; bss_local_config := bss_local_config v;
     high_link := high_link v; low_links := low_links v; tp_link := tp_link v;
     ops_map := x; high_fd := high_fd v; low_fds := low_fds v;
     err := err v |}.

Definition set_high_fd (x : Z) (v : vars) : vars :=
  {| skel := skel v; bss_local_config := bss_local_config v;
     high_link := high_link v; low_links := low_links v; tp_link := tp_link v;
     ops_map := ops_map v; high_fd := x; low_fds := low_fds v;
     err := err v |}.

Definition set_low_fds (f : list Z -> list Z) (v : vars) : vars :=
  {| skel := skel v; bss_local_config := bss_local_config v;
     high_link := high_link v; low_links := low_links v; tp_link := tp_link v;
     ops_map := ops_map v; high_fd := high_fd v; low_fds := f (low_fds v);
     err := err v |}.

Definition set_err (x : Z) (v : vars) : vars :=
  {| skel := skel v; bss_local_config := bss_local_config v;
     high_link := high_link v; low_links := low_links v; tp_link := tp_link v;
     ops_map := ops_map v; high_fd := high_fd v; low_fds := low_fds v;
     err := x |}.

(** The part of [main] before the label [cleanup]: from the variables, a
    value or [None] after a [goto cleanup], the variables afterwards and
    the calls made, in order. *)
Definition setup (A : Type) : Type := vars -> option A * vars * list event.

Definition sret {A} (a : A) : setup A := fun v => (Some a, v, []).

Definition sbind {A B} (c : setup A) (k : A -> setup B) : setup B :=
  fun v =>
    match c v with
    | (Some a, v', evs) =>
        match k a v' with
        | (r, v'', evs') => (r, v'', evs ++ evs')
        end
    | (None, v', evs) => (None, v', evs)
    end.

Definition goto_cleanup {A} : setup A := fun v => (None, v, []).

Definition emit (e : event) : setup unit := fun v => (Some tt, v, [e]).

Definition assign (f : vars -> vars) : setup unit := fun v => (Some tt, f v, []).

Definition read {A} (f : vars -> A) : setup A := fun v => (Some (f v), v, []).

Declare Scope setup_scope.
Delimit Scope setup_scope with setup.
Bind Scope setup_scope with setup.
Notation "x <- c ;; k" := (sbind c (fun x => k))
  (at level 100, c at next level, right associativity) : setup_scope.
Notation "c ;;; k" := (sbind c (fun _ => k))
  (at level 100, right associativity) : setup_scope.

Section Loader.

(** libc's [atoi] and [strtoull (_, NULL, 10)] on the text of an argument. *)
Variable atoi : string -> Z.
Variable strtoull : string -> Z.

(** The system and libbpf of this run. *)
Variable w : env.

(** The [while ((opt = getopt_long (...)) != -1) switch (opt)] loop of
    lines 152-184, over the pairs of [opt] and [optarg] that [getopt_long]
    gives before it returns -1. *)
Fixpoint parse_options (toks : list (Z * string)) (o : options) : parse_result :=
  match toks with
  | [] => ParseDone o
  | (opt, optarg) :: toks' =>
      if opt =? chr "H" then
        parse_options toks'
          {| opt_high_path := Some optarg;
             opt_low_paths := opt_low_paths o;
             opt_delay_ms := opt_delay_ms o;
             opt_threshold := opt_threshold o;
             opt_use_below_low := opt_use_below_low o;
             opt_use_below_min := opt_use_below_min o;
             opt_verbose := opt_verbose o |}
      else if opt =? chr "L" then
        if MAX_LOW_CGROUPS <=? Z.of_nat (length (opt_low_paths o))
        then ParseReturn 1
        else
          parse_options toks'
            {| opt_high_path := opt_high_path o;
               opt_low_paths := opt_low_paths o ++ [optarg];
               opt_delay_ms := opt_delay_ms o;
               opt_threshold := opt_threshold o;
               opt_use_below_low := opt_use_below_low o;
               opt_use_below_min := opt_use_below_min o;
               opt_verbose := opt_verbose o |}
      else if opt =? chr "d" then
        parse_options toks'
          {| opt_high_path := opt_high_path o;
             opt_low_paths := opt_low_paths o;
             opt_delay_ms := to_u32 (atoi optarg);
             opt_threshold := opt_threshold o;
             opt_use_below_low := opt_use_below_low o;
             opt_use_below_min := opt_use_below_min o;
             opt_verbose := opt_verbose o |}
      else if opt =? chr "t" then
        parse_options toks'
          {| opt_high_path := opt_high_path o;
             opt_low_paths := opt_low_paths o;
             opt_delay_ms := opt_delay_ms o;
             opt_threshold := U64.wrap (strtoull optarg);
             opt_use_below_low := opt_use_below_low o;
             opt_use_below_min := opt_use_below_min o;
             opt_verbose := opt_verbose o |}
      else if opt =? chr "l" then
        parse_options toks'
          {| opt_high_path := opt_high_path o;
             opt_low_paths := opt_low_paths o;
             opt_delay_ms := opt_delay_ms o;
             opt_threshold := opt_threshold o;
             opt_use_below_low := 1;
             opt_use_below_min := opt_use_below_min o;
             opt_verbose := opt_verbose o |}
      else if opt =? chr "m" then
        parse_options toks'
          {| opt_high_path := opt_high_path o;
             opt_low_paths := opt_low_paths o;
             opt_delay_ms := opt_delay_ms o;
             opt_threshold := opt_threshold o;
             opt_use_below_low := opt_use_below_low o;
             opt_use_below_min := 1;
             opt_verbose := opt_verbose o |}
      else if opt =? chr "v" then
        parse_options toks'
          {| opt_high_path := opt_high_path o;
             opt_low_paths := opt_low_paths o;
             opt_delay_ms := opt_delay_ms o;
             opt_threshold := opt_threshold o;
             opt_use_below_low := opt_use_below_low o;
             opt_use_below_min := opt_use_below_min o;
             opt_verbose := 1 |}
      else ParseReturn (if opt =? chr "h" then 0 else 1)
  end.

Local Open Scope setup_scope.

(** [static int open_cgroup (const char *path)]; [n] is the number of the
    call of [open]. *)
Definition open_cgroup (n : nat) (path : string) : setup Z :=
  let fd := sys_open w n path in
  emit (EvOpen path fd) ;;;
  if fd <? 0 then sret (-1) else sret fd.

(** [static __u64 get_cgroup_id (const char *path)] *)
Definition get_cgroup_id (path : string) : setup Z :=
  emit (EvStat path) ;;;
  match sys_stat w path with
  | None => sret 0
  | Some st_ino => sret (U64.wrap st_ino)
  end.

(** Lines 210-216, from index [i] on; [paths] holds [low_paths[i]] and the
    entries after it. *)
Fixpoint open_low_cgroups (i : nat) (paths : list string) : setup unit :=
  match paths with
  | [] => sret tt
  | path :: paths' =>
      fd <- open_cgroup (S i) path ;;
      assign (set_low_fds (<[i := fd]>)) ;;;
      if fd <? 0 then assign (set_err 1) ;;; goto_cleanup
      else open_low_cgroups (S i) paths'
  end.

(** Lines 293-303, from index [i] on. *)
Fixpoint attach_low_cgroups (i : nat) (paths : list string) : setup unit :=
  match paths with
  | [] => sret tt
  | path :: paths' =>
      relative_fd <- read (fun v => low_fds v !!! i) ;;
      m <- read ops_map ;;
      let link := attach_struct_ops w (S i) m relative_fd in
      emit (EvAttachStructOps m relative_fd link) ;;;
      assign (set_low_links (<[i := link]>)) ;;;
      if link =? 0 then assign (set_err 1) ;;; goto_cleanup
      else attach_low_cgroups (S i) paths'
  end.

(** The four lookups of lines 313-315 and 334-336. *)
Definition lookup_stats : setup unit :=
  emit (EvLookupStats 0) ;;; emit (EvLookupStats 1) ;;;
  emit (EvLookupStats 2) ;;; emit (EvLookupStats 3).

(** [while (running) { ... sleep (1); }], for the [n] turns that find
    [running] set. *)
Fixpoint report_loop (n : nat) : setup unit :=
  match n with
  | O => sret tt
  | S n' => lookup_stats ;;; emit EvSleep ;;; report_loop n'
  end.

(** Lines 196-216 of [main]: the signal handlers, the print callback and
    the cgroups. *)
Definition open_cgroups (o : options) (high_path : string) : setup unit :=
  emit (EvSignal SIGINT) ;;;
  emit (EvSignal SIGTERM) ;;;
  emit EvSetPrint ;;;
  fd <- open_cgroup 0 high_path ;;
  assign (set_high_fd fd) ;;;
  (if fd <? 0 then assign (set_err 1) ;;; goto_cleanup else sret tt) ;;;
  open_low_cgroups 0 (opt_low_paths o).

(** Lines 218-256: the skeleton is opened, configured and loaded. *)
Definition configure_and_load (o : options) (high_path : string) : setup unit :=
  emit (EvSkelOpen (skel_open w)) ;;;
  assign (set_skel (skel_open w)) ;;;
  (if skel_open w =? 0 then assign (set_err 1) ;;; goto_cleanup else sret tt) ;;;
  id <- get_cgroup_id high_path ;;
  assign (set_bss_local_config
            {| high_cgroup_id := id;
               threshold := opt_threshold o;
               over_high_ms := opt_delay_ms o;
               use_below_low := to_u8 (opt_use_below_low o);
               use_below_min := to_u8 (opt_use_below_min o) |}) ;;;
  (if id =? 0 then assign (set_err 1) ;;; goto_cleanup else sret tt) ;;;
  cfg <- read bss_local_config ;;
  emit (EvSkelLoad cfg (skel_load w)) ;;;
  assign (set_err (skel_load w)) ;;;
  (if skel_load w =? 0 then sret tt else goto_cleanup).

(** Lines 258-303: the tracepoint and the two struct_ops are attached. *)
Definition attach_all (o : options) : setup unit :=
  emit (EvAttachProgram (attach_program w)) ;;;
  assign (set_tp_link (attach_program w)) ;;;
  (if attach_program w =? 0 then assign (set_err 1) ;;; goto_cleanup else sret tt) ;;;
  emit (EvFindMap "high_mcg_ops" (find_map w "high_mcg_ops")) ;;;
  assign (set_ops_map (find_map w "high_mcg_ops")) ;;;
  (if find_map w "high_mcg_ops" =? 0 then assign (set_err 1) ;;; goto_cleanup
   else sret tt) ;;;
  relative_fd <- read high_fd ;;
  m <- read ops_map ;;
  emit (EvAttachStructOps m relative_fd (attach_struct_ops w 0 m relative_fd)) ;;;
  assign (set_high_link (attach_struct_ops w 0 m relative_fd)) ;;;
  (if attach_struct_ops w 0 m relative_fd =? 0
   then assign (set_err 1) ;;; goto_cleanup else sret tt) ;;;
  emit (EvFindMap "low_mcg_ops" (find_map w "low_mcg_ops")) ;;;
  assign (set_ops_map (find_map w "low_mcg_ops")) ;;;
  (if find_map w "low_mcg_ops" =? 0 then assign (set_err 1) ;;; goto_cleanup
   else sret tt) ;;;
  attach_low_cgroups 0 (opt_low_paths o).

(** Lines 305-342: the counters are reported until a signal, and once
    more. *)
Definition report : setup unit :=
  report_loop (signals w) ;;;
  lookup_stats.

(** Lines 196-342 of [main]. *)
Definition main_setup (o : options) (high_path : string) : setup unit :=
  open_cgroups o high_path ;;;
  configure_and_load o high_path ;;;
  attach_all o ;;;
  report.

Local Close Scope setup_scope.

(** The calls after the label [cleanup], lines 344-359. *)
Definition cleanup (low_count : nat) (v : vars) : list event :=
  [EvLinkDestroy (tp_link v); EvLinkDestroy (high_link v)]
  ++ map (fun i => EvLinkDestroy (low_links v !!! i)) (seq 0 low_count)
  ++ [EvSkelDestroy (skel v)]
  ++ (if 0 <=? high_fd v then [EvClose (high_fd v)] else [])
  ++ flat_map (fun i => if 0 <=? low_fds v !!! i
                        then [EvClose (low_fds v !!! i)] else [])
              (seq 0 low_count).

(** [int main (int argc, char **argv)]: the calls made and the value
    returned. *)
Definition main (toks : list (Z * string)) : list event * Z :=
  match parse_options toks default_options with
  | ParseReturn code => ([], code)
  | ParseDone o =>
      match opt_high_path o with
      | None => ([], 1)
      | Some high_path =>
          let '(_, v, log) := main_setup o high_path initial_vars in
          (log ++ cleanup (length (opt_low_paths o)) v, err v)
      end
  end.

End Loader.

(** ** What the command line says *)

(** The options the loop stores; [h] and everything else end the loop. *)
Definition accepted (tok : Z * string) : bool :=
  existsb (Z.eqb (fst tok))
    [chr "H"; chr "L"; chr "d"; chr "t"; chr "l"; chr "m"; chr "v"].

(** The arguments given with option [c], in order. *)
Fixpoint args_of (c : ascii) (toks : list (Z * string)) : list string :=
  match toks with
  | [] => []
  | tok :: toks' =>
      if fst tok =? chr c then snd tok :: args_of c toks' else args_of c toks'
  end.

Definition last_arg (c : ascii) (toks : list (Z * string)) : option string :=
  last (args_of c toks).

Definition given (c : ascii) (toks : list (Z * string)) : bool :=
  existsb (fun tok => fst tok =? chr c) toks.

(** The variables after the options [toks], from the variables [o]: the
    last [--high], [--delay-ms] and [--threshold] count, the [--low] paths
    add up, a flag given once is set. *)
Definition parsed_from (atoi strtoull : string -> Z) (o : options)
    (toks : list (Z * string)) : options :=
  {| opt_high_path :=
       match last_arg "H" toks with
       | Some path => Some path
       | None => opt_high_path o
       end;
     opt_low_paths := opt_low_paths o ++ args_of "L" toks;
     opt_delay_ms :=
       match last_arg "d" toks with
       | Some arg => to_u32 (atoi arg)
       | None => opt_delay_ms o
       end;
     opt_threshold :=
       match last_arg "t" toks with
       | Some arg => U64.wrap (strtoull arg)
       | None => opt_threshold o
       end;
     opt_use_below_low := if given "l" toks then 1 else opt_use_below_low o;
     opt_use_below_min := if given "m" toks then 1 else opt_use_below_min o;
     opt_verbose := if given "v" toks then 1 else opt_verbose o |}.

(** The variables hold values of their types and [low_paths] is within its
    [MAX_LOW_CGROUPS] entries. *)
Definition options_ok (o : options) : Prop :=
  Z.of_nat (length (opt_low_paths o)) <= MAX_LOW_CGROUPS /\
  0 <= opt_delay_ms o < 2 ^ 32 /\
  0 <= opt_threshold o < 2 ^ 64 /\
  (opt_use_below_low o = 0 \/ opt_use_below_low o = 1) /\
  (opt_use_below_min o = 0 \/ opt_use_below_min o = 1).

(** ** What a record of calls holds *)

(** The descriptors [open] gave, the descriptors closed, the links the
    attachments gave, the links destroyed (NULL left out), and the
    descriptors the struct_ops were attached to. *)
Definition opened (log : list event) : list Z :=
  flat_map (fun e => match e with
                     | EvOpen _ fd => if 0 <=? fd then [fd] else []
                     | _ => []
                     end) log.

Definition closed (log : list event) : list Z :=
  flat_map (fun e => match e with
                     | EvClose fd => [fd]
                     | _ => []
                     end) log.

Definition attached (log : list event) : list Z :=
  flat_map (fun e => match e with
                     | EvAttachProgram link => if link =? 0 then [] else [link]
                     | EvAttachStructOps _ _ link => if link =? 0 then [] else [link]
                     | _ => []
                     end) log.

Definition destroyed (log : list event) : list Z :=
  flat_map (fun e => match e with
                     | EvLinkDestroy link => if link =? 0 then [] else [link]
                     | _ => []
                     end) log.

Definition attached_to (log : list event) : list Z :=
  flat_map (fun e => match e with
                     | EvAttachStructOps _ fd link => if link =? 0 then [] else [fd]
                     | _ => []
                     end) log.

Definition loaded (log : list event) : list (memcg_priority_config * Z) :=
  flat_map (fun e => match e with
                     | EvSkelLoad cfg e => [(cfg, e)]
                     | _ => []
                     end) log.

(** A sample system in which every call succeeds, and sample options. *)
Definition sample_env : env :=
  {| sys_open := fun n _ => 3 + Z.of_nat n;
     sys_stat := fun _ => Some 42;
     skel_open := 1000;
     skel_load := 0;
     attach_program := 2000;
     find_map := fun _ => 3000;
     attach_struct_ops := fun n _ _ => 4000 + Z.of_nat n;
     signals := 1%nat |}.

Definition sample_toks : list (Z * string) :=
  [(chr "H", "/sys/fs/cgroup/high"); (chr "L", "/sys/fs/cgroup/low1");
   (chr "L", "/sys/fs/cgroup/low2"); (chr "t", "10"); (chr "l", "")].


(** ** Statements about the part before [cleanup]

    [preserves R Q c]: from any variables, [c] leaves variables related by
    [R] to those it started from and makes calls that satisfy [Q]. *)
Definition preserves {A} (R : vars -> vars -> Prop) (Q : list event -> Prop)
    (c : setup A) : Prop :=
  forall v, R v (snd (fst (c v))) /\ Q (snd (c v)).

(** The descriptors are left alone: the variables that hold them keep their
    values and no call opens or closes one. *)
Definition same_fds (v v' : vars) : Prop :=
  high_fd v' = high_fd v /\ low_fds v' = low_fds v.

Definition no_fd_calls (evs : list event) : Prop :=
  opened evs = [] /\ closed evs = [].

(** What the loop of [cleanup] closes for index [i]. *)
Definition close_low (v : vars) (i : nat) : list Z :=
  if 0 <=? low_fds v !!! i then [low_fds v !!! i] else [].

(** Nothing is loaded, whatever happens to the variables. *)
Definition any_vars (v v' : vars) : Prop := True.

Definition no_load (evs : list event) : Prop := loaded evs = [].


(** Nothing is attached. *)
Definition no_attach (evs : list event) : Prop :=
  attached_to evs = [] /\ attached evs = [].

(** A pointer, unless it is NULL. *)
Definition nonnull (x : Z) : list Z := if x =? 0 then [] else [x].

(** The skeleton [memcg_priority__open] gave and the one destroyed. *)
Definition skel_opened (log : list event) : list Z :=
  flat_map (fun e => match e with
                     | EvSkelOpen s => nonnull s
                     | _ => []
                     end) log.

Definition skel_destroyed (log : list event) : list Z :=
  flat_map (fun e => match e with
                     | EvSkelDestroy s => nonnull s
                     | _ => []
                     end) log.

(** The links and the skeleton are left alone. *)
Definition same_links (v v' : vars) : Prop :=
  tp_link v' = tp_link v /\ high_link v' = high_link v /\
  low_links v' = low_links v /\ skel v' = skel v.

Definition no_link_calls (evs : list event) : Prop :=
  attached evs = [] /\ destroyed evs = [] /\
  skel_opened evs = [] /\ skel_destroyed evs = [].

(** What the loop of [cleanup] destroys for index [i]. *)
Definition destroy_low (v : vars) (i : nat) : list Z := nonnull (low_links v !!! i).

(** No link is held yet: the variables are NULL as [main] set them. *)
Definition no_links (n : nat) (v : vars) : Prop :=
  tp_link v = 0 /\ high_link v = 0 /\
  (n <= length (low_links v))%nat /\
  forall j, (j < n)%nat -> low_links v !!! j = 0.

(** Stand-ins for [atoi] and [strtoull] at the sample inputs. *)
Definition sample_atoi (s : string) : Z := 2000.
Definition sample_strtoull (s : string) : Z := 10.

(** Facts of [U64]. *)

Lemma u64_modulus_eq : U64.modulus = 2 ^ 64.
Proof. reflexivity. Qed.

Lemma u64_modulus_pos : 0 < U64.modulus.
Proof. reflexivity. Qed.

Lemma u64_wrap_range x : U64.in_range (U64.wrap x).
Proof. unfold U64.in_range, U64.wrap. apply Z.mod_pos_bound, u64_modulus_pos. Qed.

Lemma u64_wrap_small x : U64.in_range x -> U64.wrap x = x.
Proof. unfold U64.in_range, U64.wrap. intros H. now apply Z.mod_small. Qed.

(** With a clock that has not wrapped between [b] and [a], the machine
    subtraction is the elapsed time. *)
Lemma u64_sub_no_wrap a b : 0 <= b -> b <= a -> a < U64.modulus -> U64.sub a b = a - b.
Proof. intros. apply u64_wrap_small. unfold U64.in_range. lia. Qed.

(** Going [d] ahead and subtracting gives [d] back, wrap or no wrap. *)
Lemma u64_sub_add_cancel a d : U64.in_range d -> U64.sub (U64.add a d) a = d.
Proof.
  intros Hd. unfold U64.sub, U64.add, U64.wrap.
  rewrite Zminus_mod_idemp_l.
  replace (a + d - a) with d by lia.
  now apply Z.mod_small.
Qed.

Lemma u64_add_wrap_l a b : U64.add (U64.wrap a) b = U64.wrap (a + b).
Proof. unfold U64.add, U64.wrap. apply Zplus_mod_idemp_l. Qed.

(** Small runs of the programs. *)

Example run_crossing :
  snd (run sample_config
         [(5, CountMemcgEvents (page_fault 6)); (7, CountMemcgEvents (page_fault 6))]
         initial_maps)
  = {| aggregation_map := [ {| sum := 0; window_start_ts := 7 |} ];
       trigger_ts_map := [ 7 ];
       stats := [ 0; 0; 0; 0 ] |}.
Proof. reflexivity. Qed.

Example run_callbacks :
  run sample_config
    [(5, CountMemcgEvents (page_fault 11)); (6, BelowLow); (7, GetHighDelayMs);
     (8, BelowMin); (1000000005, BelowLow); (1000000006, GetHighDelayMs)]
    initial_maps
  = ([(CountMemcgEvents (page_fault 11), RInt 0); (BelowLow, RBool true);
      (GetHighDelayMs, RUint 2000); (BelowMin, RBool true);
      (BelowLow, RBool false); (GetHighDelayMs, RUint 0)],
     {| aggregation_map := [ {| sum := 0; window_start_ts := 5 |} ];
        trigger_ts_map := [ 5 ];
        stats := [ 2; 1; 2; 1 ] |}).
Proof. reflexivity. Qed.

(** ** [need_protection] *)

Lemma need_protection_eq now m :
  need_protection now m = (is_protection_active now m, m).
Proof.
  unfold is_protection_active, need_protection, bind, bpf_map_lookup_elem,
    bpf_ktime_get_ns, ret.
  destruct (trigger_ts_map m !! Z.to_nat 0) as [ts|]; [|reflexivity].
  destruct (ts =? 0); reflexivity.
Qed.

(** The answer depends on [trigger_ts_map] alone. *)
Lemma is_protection_active_ext now m m' :
  trigger_ts_map m = trigger_ts_map m' ->
  is_protection_active now m = is_protection_active now m'.
Proof.
  intros E.
  unfold is_protection_active, need_protection, bind, bpf_map_lookup_elem,
    bpf_ktime_get_ns, ret.
  rewrite E.
  destruct (trigger_ts_map m' !! Z.to_nat 0) as [ts|]; [|reflexivity].
  destruct (ts =? 0); reflexivity.
Qed.

Lemma is_protection_active_trigger now m :
  is_protection_active now m =
  match trigger_timestamp m with
  | None => false
  | Some ts => U64.sub now ts <? ONE_SECOND_NS
  end.
Proof.
  unfold is_protection_active, trigger_timestamp, need_protection, bind,
    bpf_map_lookup_elem, bpf_ktime_get_ns, ret.
  change (Z.to_nat 0) with 0%nat.
  destruct (trigger_ts_map m !! 0%nat) as [ts|]; [|reflexivity].
  destruct (ts =? 0); reflexivity.
Qed.

(** C3. [need_protection] leaves the maps as they are; it answers [false]
    when no crossing is recorded (the trigger timestamp is [None], which the
    map stores as 0), and otherwise answers whether the clock minus the
    recorded timestamp, subtracted as [__u64] values, is strictly below one
    second. *)
Theorem need_protection_spec (now : Z) (m : maps) :
  need_protection now m =
  (match trigger_timestamp m with
   | None => false
   | Some ts => U64.sub now ts <? ONE_SECOND_NS
   end, m).
Proof.
  rewrite need_protection_eq. f_equal. apply is_protection_active_trigger.
Qed.

(** For a clock at or after the recorded timestamp the subtraction is the
    elapsed time: protection is active exactly while less than one second
    has elapsed. *)
Lemma is_protection_active_elapsed now m ts :
  trigger_timestamp m = Some ts ->
  0 <= ts <= now -> now < U64.modulus ->
  is_protection_active now m = true <-> now - ts < ONE_SECOND_NS.
Proof.
  intros E Hts Hnow.
  rewrite is_protection_active_trigger, E, u64_sub_no_wrap by lia.
  apply Z.ltb_lt.
Qed.

(** ** The callbacks *)

Lemma stat_fetch_and_add_stats key v now m c :
  stats m !! Z.to_nat key = Some c ->
  stat_fetch_and_add key v now m
  = (tt, set_stats (<[Z.to_nat key := U64.add c v]>) m).
Proof. intros E. unfold stat_fetch_and_add. now rewrite E. Qed.

(** C6. [below_min_impl] answers [false] when [use_below_min] is 0 and
    [need_protection ()] otherwise, and leaves the maps, the four counters
    among them, as they are. *)
Theorem below_min_impl_spec (cfg : memcg_priority_config) (now : Z) (m : maps) :
  below_min_impl cfg now m =
  (if use_below_min cfg =? 0 then false else is_protection_active now m, m)
  /\ stats (snd (below_min_impl cfg now m)) = stats m.
Proof.
  unfold below_min_impl.
  destruct (use_below_min cfg =? 0).
  - split; reflexivity.
  - rewrite need_protection_eq. split; reflexivity.
Qed.

(** What [below_low_impl] does when [stats] has its four slots. *)
Lemma below_low_impl_eq cfg now m c0 c1 c2 c3 :
  stats m = [c0; c1; c2; c3] ->
  below_low_impl cfg now m =
  (if use_below_low cfg =? 0 then false else is_protection_active now m,
   {| aggregation_map := aggregation_map m;
      trigger_ts_map := trigger_ts_map m;
      stats := [c0; c1; U64.add c2 1;
                if (if use_below_low cfg =? 0 then false
                    else is_protection_active now m)
                then U64.add c3 1 else c3] |}).
Proof.
  intros Hs.
  unfold below_low_impl, bind.
  rewrite (stat_fetch_and_add_stats _ _ _ _ c2) by (rewrite Hs; reflexivity).
  destruct (use_below_low cfg =? 0).
  - unfold ret, set_stats. rewrite Hs. reflexivity.
  - rewrite need_protection_eq.
    rewrite (is_protection_active_ext now _ m) by reflexivity.
    destruct (is_protection_active now m).
    + rewrite (stat_fetch_and_add_stats _ _ _ _ c3)
        by (cbn; rewrite Hs; reflexivity).
      unfold ret, set_stats. cbn. rewrite Hs. reflexivity.
    + unfold ret, set_stats. rewrite Hs. reflexivity.
Qed.

(** What [get_high_delay_ms_impl] does when [stats] has its four slots. *)
Lemma get_high_delay_ms_impl_eq cfg now m c0 c1 c2 c3 :
  stats m = [c0; c1; c2; c3] ->
  get_high_delay_ms_impl cfg now m =
  (if negb (over_high_ms cfg =? 0) && is_protection_active now m
   then over_high_ms cfg else 0,
   {| aggregation_map := aggregation_map m;
      trigger_ts_map := trigger_ts_map m;
      stats := [U64.add c0 1;
                if negb (over_high_ms cfg =? 0) && is_protection_active now m
                then U64.add c1 1 else c1;
                c2; c3] |}).
Proof.
  intros Hs.
  unfold get_high_delay_ms_impl, bind.
  rewrite (stat_fetch_and_add_stats _ _ _ _ c0) by (rewrite Hs; reflexivity).
  destruct (over_high_ms cfg =? 0); cbn [negb andb].
  - unfold ret, set_stats. rewrite Hs. reflexivity.
  - rewrite need_protection_eq.
    rewrite (is_protection_active_ext now _ m) by reflexivity.
    destruct (is_protection_active now m).
    + rewrite (stat_fetch_and_add_stats _ _ _ _ c1)
        by (cbn; rewrite Hs; reflexivity).
      unfold ret, set_stats. cbn. rewrite Hs. reflexivity.
    + unfold ret, set_stats. rewrite Hs. reflexivity.
Qed.

(** C5. [below_low_impl] adds one to the [STAT_BELOW_LOW_CALLS] counter on
    every call; it answers [false] when [use_below_low] is 0 and
    [need_protection ()] otherwise, and adds one to the
    [STAT_BELOW_LOW_ACTIVE] counter exactly when it answers [true]. Nothing
    else changes. *)
Theorem below_low_impl_spec (cfg : memcg_priority_config) (now : Z) (m : maps)
    (c0 c1 c2 c3 : Z) :
  stats m = [c0; c1; c2; c3] ->
  let answer :=
    if use_below_low cfg =? 0 then false else is_protection_active now m in
  below_low_impl cfg now m =
  (answer,
   {| aggregation_map := aggregation_map m;
      trigger_ts_map := trigger_ts_map m;
      stats := [c0; c1; U64.add c2 1; if answer then U64.add c3 1 else c3] |}).
Proof.
  intros Hs answer. subst answer. now apply below_low_impl_eq.
Qed.

(** C4. [get_high_delay_ms_impl] adds one to the [STAT_HIGH_DELAY_CALLS]
    counter on every call; when [over_high_ms] is greater than 0 and
    protection is active it adds one to the [STAT_HIGH_DELAY_ACTIVE] counter
    and returns [over_high_ms]; in every other case it returns 0 and leaves
    that counter alone. Nothing else changes. *)
Theorem get_high_delay_ms_impl_spec (cfg : memcg_priority_config) (now : Z)
    (m : maps) (c0 c1 c2 c3 : Z) :
  0 <= over_high_ms cfg < 2 ^ 32 ->
  stats m = [c0; c1; c2; c3] ->
  let throttle := (0 <? over_high_ms cfg) && is_protection_active now m in
  get_high_delay_ms_impl cfg now m =
  (if throttle then over_high_ms cfg else 0,
   {| aggregation_map := aggregation_map m;
      trigger_ts_map := trigger_ts_map m;
      stats := [U64.add c0 1; if throttle then U64.add c1 1 else c1; c2; c3] |}).
Proof.
  intros Hms Hs throttle. subst throttle.
  rewrite (get_high_delay_ms_impl_eq _ _ _ _ _ _ _ Hs).
  replace (negb (over_high_ms cfg =? 0)) with (0 <? over_high_ms cfg);
    [reflexivity|].
  destruct (Z.eqb_spec (over_high_ms cfg) 0) as [E|E]; cbn [negb].
  - rewrite E. reflexivity.
  - apply Z.ltb_lt. lia.
Qed.

(** ** The tracepoint handler *)

Lemma wf_maps_inv m :
  wf_maps m ->
  exists d t c0 c1 c2 c3,
    aggregation_map m = [d] /\ trigger_ts_map m = [t] /\ stats m = [c0; c1; c2; c3].
Proof.
  intros (Ha & Ht & Hs).
  destruct (aggregation_map m) as [|d [|]]; try discriminate.
  destruct (trigger_ts_map m) as [|t [|]]; try discriminate.
  destruct (stats m) as [|c0 [|c1 [|c2 [|c3 [|]]]]]; try discriminate.
  exists d, t, c0, c1, c2, c3. auto.
Qed.

Lemma wf_initial_maps : wf_maps initial_maps.
Proof. repeat split. Qed.

Lemma not_of_interest_relevant cfg ctx :
  relevant cfg ctx -> not_of_interest cfg ctx = false.
Proof.
  intros [Hid Hitem]. unfold not_of_interest, PGFAULT in *.
  rewrite Hid, Hitem, !Z.eqb_refl. reflexivity.
Qed.

Lemma not_of_interest_irrelevant cfg ctx :
  ctx_id ctx <> high_cgroup_id cfg \/ ctx_item ctx <> PGFAULT ->
  not_of_interest cfg ctx = true.
Proof.
  unfold not_of_interest, PGFAULT.
  intros [H|H]; apply Z.eqb_neq in H; rewrite H; cbn [negb orb].
  - reflexivity.
  - apply orb_true_r.
Qed.

(** What the handler does with an event it counts, when the maps have
    their slots. *)
Lemma handle_count_memcg_events_relevant cfg ctx now m data t :
  relevant cfg ctx ->
  aggregation_map m = [data] ->
  trigger_ts_map m = [t] ->
  handle_count_memcg_events cfg ctx now m =
  (0,
   let w := accumulate data now (ctx_val ctx) in
   if threshold cfg <? sum w
   then {| aggregation_map := [ {| sum := 0; window_start_ts := now |} ];
           trigger_ts_map := [ now ];
           stats := stats m |}
   else {| aggregation_map := [ w ];
           trigger_ts_map := [ t ];
           stats := stats m |}).
Proof.
  intros Hrel Ha Ht.
  unfold handle_count_memcg_events.
  rewrite (not_of_interest_relevant _ _ Hrel).
  unfold bind, bpf_map_lookup_elem, bpf_ktime_get_ns, store_aggregation,
    update_trigger_ts, ret, set_aggregation_map, set_trigger_ts_map.
  change (Z.to_nat 0) with 0%nat.
  rewrite Ha. cbn [lookup list_lookup].
  destruct (threshold cfg <? sum (accumulate data now (ctx_val ctx)));
    cbn; rewrite ?Ha, ?Ht; reflexivity.
Qed.

(** C7. An event of another cgroup, or one that is not a page fault, changes
    nothing: the handler returns 0 and the three maps are as before. *)
Theorem irrelevant_event_noop (cfg : memcg_priority_config)
    (ctx : trace_event_raw_memcg_rstat_events) (now : Z) (m : maps) :
  ctx_id ctx <> high_cgroup_id cfg \/ ctx_item ctx <> PGFAULT ->
  handle_count_memcg_events cfg ctx now m = (0, m).
Proof.
  intros H. unfold handle_count_memcg_events.
  rewrite (not_of_interest_irrelevant _ _ H). reflexivity.
Qed.

(** C2. For an event the handler counts: when the clock minus the window
    start is below one second the event's value is added to the sum and the
    window start stays; otherwise a new window starts at the clock value,
    with the event's value alone as its sum. This window [w] is what the
    threshold is compared with: it is the window the handler leaves when its
    sum does not exceed the threshold, and it is replaced by the reset
    window when it does. *)
Theorem window_accumulation (cfg : memcg_priority_config)
    (ctx : trace_event_raw_memcg_rstat_events) (now : Z) (m : maps)
    (data : AggregationData) :
  relevant cfg ctx ->
  wf_maps m ->
  aggregation_map m !! 0%nat = Some data ->
  let w :=
    if U64.sub now (window_start_ts data) <? ONE_SECOND_NS
    then {| sum := U64.add (sum data) (ctx_val ctx);
            window_start_ts := window_start_ts data |}
    else {| sum := ctx_val ctx; window_start_ts := now |} in
  (sum w <= threshold cfg ->
   handle_count_memcg_events cfg ctx now m =
   (0, {| aggregation_map := [ w ];
          trigger_ts_map := trigger_ts_map m;
          stats := stats m |})) /\
  (threshold cfg < sum w ->
   aggregation_map (snd (handle_count_memcg_events cfg ctx now m)) =
   [ {| sum := 0; window_start_ts := now |} ]).
Proof.
  intros Hrel Hwf Hd w.
  destruct (wf_maps_inv _ Hwf) as (d & t & c0 & c1 & c2 & c3 & Ha & Ht & Hs).
  rewrite Ha in Hd. injection Hd as ->.
  rewrite (handle_count_memcg_events_relevant _ _ _ _ data t Hrel Ha Ht).
  change (accumulate data now (ctx_val ctx)) with w.
  cbv zeta. split; intros H.
  - replace (threshold cfg <? sum w) with false by (symmetry; apply Z.ltb_ge; lia).
    rewrite Ht. reflexivity.
  - replace (threshold cfg <? sum w) with true by (symmetry; apply Z.ltb_lt; lia).
    reflexivity.
Qed.

(** C1, amended. For an event the handler counts, when the sum after the
    event is counted exceeds the threshold, the handler stores the clock
    value as the trigger timestamp and resets the window to sum 0 starting
    at the clock value, whatever the clock value. When that clock value is
    not 0, protection is then active at every clock value less than one
    second later, and inactive at every clock value one second or more
    later: [d] nanoseconds later on a clock that may wrap, or at a later
    clock value [now']. *)
Theorem crossing_triggers_protection (cfg : memcg_priority_config)
    (ctx : trace_event_raw_memcg_rstat_events) (now : Z) (m : maps)
    (data : AggregationData) :
  relevant cfg ctx ->
  wf_maps m ->
  aggregation_map m !! 0%nat = Some data ->
  threshold cfg <
    sum (if U64.sub now (window_start_ts data) <? ONE_SECOND_NS
         then {| sum := U64.add (sum data) (ctx_val ctx);
                 window_start_ts := window_start_ts data |}
         else {| sum := ctx_val ctx; window_start_ts := now |}) ->
  let m' :=
    {| aggregation_map := [ {| sum := 0; window_start_ts := now |} ];
       trigger_ts_map := [ now ];
       stats := stats m |} in
  handle_count_memcg_events cfg ctx now m = (0, m') /\
  (now <> 0 ->
   trigger_timestamp m' = Some now /\
   (forall d, 0 <= d < U64.modulus ->
      is_protection_active (U64.add now d) m' = (d <? ONE_SECOND_NS)) /\
   (forall now', 0 <= now <= now' -> now' < U64.modulus ->
      is_protection_active now' m' = (now' - now <? ONE_SECOND_NS))).
Proof.
  intros Hrel Hwf Hd Hcross m'.
  destruct (wf_maps_inv _ Hwf) as (d0 & t & c0 & c1 & c2 & c3 & Ha & Ht & Hs).
  rewrite Ha in Hd. injection Hd as ->.
  rewrite (handle_count_memcg_events_relevant _ _ _ _ data t Hrel Ha Ht).
  cbv zeta. unfold accumulate.
  apply Z.ltb_lt in Hcross. rewrite Hcross.
  split; [reflexivity|].
  intros Hnow.
  assert (trigger_timestamp m' = Some now) as Htrig.
  { unfold trigger_timestamp, m'. cbn.
    replace (now =? 0) with false by (symmetry; apply Z.eqb_neq; exact Hnow).
    reflexivity. }
  split; [exact Htrig|]. split.
  - intros d Hd.
    rewrite is_protection_active_trigger, Htrig.
    rewrite u64_sub_add_cancel by exact Hd. reflexivity.
  - intros now' Hle Hlt.
    rewrite is_protection_active_trigger, Htrig.
    rewrite u64_sub_no_wrap by lia. reflexivity.
Qed.

(** C10. [need_protection] answers [false] whenever slot 0 of
    [trigger_ts_map] holds 0, the value the map is created with. So when the
    handler records a crossing while the clock reads 0, the map is as if no
    crossing had happened and protection is active at no later clock
    value. *)
Theorem zero_timestamp_is_no_crossing (cfg : memcg_priority_config)
    (ctx : trace_event_raw_memcg_rstat_events) (m : maps)
    (data : AggregationData) :
  relevant cfg ctx ->
  wf_maps m ->
  aggregation_map m !! 0%nat = Some data ->
  threshold cfg < sum (accumulate data 0 (ctx_val ctx)) ->
  let m' := snd (handle_count_memcg_events cfg ctx 0 m) in
  (forall now m0, trigger_ts_map m0 !! 0%nat = Some 0 ->
     need_protection now m0 = (false, m0)) /\
  trigger_ts_map m' = trigger_ts_map initial_maps /\
  trigger_timestamp m' = None /\
  forall now, need_protection now m' = (false, m').
Proof.
  intros Hrel Hwf Hd Hcross m'.
  assert (forall now m0, trigger_ts_map m0 !! 0%nat = Some 0 ->
            need_protection now m0 = (false, m0)) as Hzero.
  { intros now m0 E.
    rewrite need_protection_eq, is_protection_active_trigger.
    unfold trigger_timestamp. rewrite E. reflexivity. }
  destruct (wf_maps_inv _ Hwf) as (d0 & t & c0 & c1 & c2 & c3 & Ha & Ht & Hs).
  rewrite Ha in Hd. injection Hd as ->.
  assert (trigger_ts_map m' = [0]) as Hm'.
  { unfold m'.
    rewrite (handle_count_memcg_events_relevant _ _ _ _ data t Hrel Ha Ht).
    cbv zeta. apply Z.ltb_lt in Hcross. rewrite Hcross. reflexivity. }
  split; [exact Hzero|]. split; [exact Hm'|]. split.
  - unfold trigger_timestamp. rewrite Hm'. reflexivity.
  - intros now. apply Hzero. rewrite Hm'. reflexivity.
Qed.

(** ** Sequences of invocations: frame lemmas *)

Lemma stat_fetch_and_add_frame key v now m :
  aggregation_map (snd (stat_fetch_and_add key v now m)) = aggregation_map m /\
  trigger_ts_map (snd (stat_fetch_and_add key v now m)) = trigger_ts_map m.
Proof.
  unfold stat_fetch_and_add.
  destruct (stats m !! Z.to_nat key); split; reflexivity.
Qed.

(** The handler never touches [stats]. *)
Lemma handle_count_memcg_events_stats cfg ctx now m :
  stats (snd (handle_count_memcg_events cfg ctx now m)) = stats m.
Proof.
  unfold handle_count_memcg_events, bind, bpf_map_lookup_elem,
    bpf_ktime_get_ns, store_aggregation, update_trigger_ts, ret.
  destruct (not_of_interest cfg ctx); [reflexivity|].
  destruct (aggregation_map m !! Z.to_nat 0) as [data|]; [|reflexivity].
  destruct (threshold cfg <? sum (accumulate data now (ctx_val ctx)));
    reflexivity.
Qed.

Lemma handle_count_memcg_events_skip cfg ctx now m :
  not_of_interest cfg ctx = true ->
  handle_count_memcg_events cfg ctx now m = (0, m).
Proof. intros H. unfold handle_count_memcg_events. now rewrite H. Qed.

(** The callbacks touch [stats] alone. *)
Lemma callback_frame cfg c t m :
  (forall ctx, c <> CountMemcgEvents ctx) ->
  aggregation_map (snd (invoke cfg c t m)) = aggregation_map m /\
  trigger_ts_map (snd (invoke cfg c t m)) = trigger_ts_map m.
Proof.
  intros Hc. destruct c as [ctx| | |]; [now destruct (Hc ctx)| | |].
  - unfold invoke, bind, below_low_impl, bind.
    pose proof (stat_fetch_and_add_frame STAT_BELOW_LOW_CALLS 1 t m) as [Ha Ht].
    destruct (stat_fetch_and_add STAT_BELOW_LOW_CALLS 1 t m) as [[] m1].
    cbn [snd] in Ha, Ht.
    destruct (use_below_low cfg =? 0); [now split|].
    rewrite need_protection_eq.
    destruct (is_protection_active t m1); [|now split].
    pose proof (stat_fetch_and_add_frame STAT_BELOW_LOW_ACTIVE 1 t m1) as [Ha' Ht'].
    destruct (stat_fetch_and_add STAT_BELOW_LOW_ACTIVE 1 t m1) as [[] m2].
    unfold ret. cbn [snd] in *. split; congruence.
  - unfold invoke, bind, below_min_impl.
    destruct (use_below_min cfg =? 0); [now split|].
    rewrite need_protection_eq. now split.
  - unfold invoke, bind, get_high_delay_ms_impl, bind.
    pose proof (stat_fetch_and_add_frame STAT_HIGH_DELAY_CALLS 1 t m) as [Ha Ht].
    destruct (stat_fetch_and_add STAT_HIGH_DELAY_CALLS 1 t m) as [[] m1].
    cbn [snd] in Ha, Ht.
    destruct (negb (over_high_ms cfg =? 0)); [|now split].
    rewrite need_protection_eq.
    destruct (is_protection_active t m1); [|now split].
    pose proof (stat_fetch_and_add_frame STAT_HIGH_DELAY_ACTIVE 1 t m1) as [Ha' Ht'].
    destruct (stat_fetch_and_add STAT_HIGH_DELAY_ACTIVE 1 t m1) as [[] m2].
    unfold ret. cbn [snd] in *. split; congruence.
Qed.

(** One invocation moves each counter by one when the call is of the kind
    the counter counts, and not at all otherwise. *)
Lemma invoke_stats cfg c t m c0 c1 c2 c3 :
  stats m = [c0; c1; c2; c3] ->
  let e := (c, fst (invoke cfg c t m)) in
  stats (snd (invoke cfg c t m)) =
  [bump c0 (is_high_delay_call e); bump c1 (is_high_delay_active e);
   bump c2 (is_below_low_call e); bump c3 (is_below_low_active e)].
Proof.
  intros Hs e. subst e. destruct c as [ctx| | |]; unfold invoke, bind.
  - pose proof (handle_count_memcg_events_stats cfg ctx t m) as H.
    destruct (handle_count_memcg_events cfg ctx t m) as [r m'].
    cbn [fst snd ret] in *. rewrite H, Hs. reflexivity.
  - rewrite (below_low_impl_eq _ _ _ _ _ _ _ Hs). reflexivity.
  - unfold below_min_impl.
    destruct (use_below_min cfg =? 0); [exact Hs|].
    rewrite need_protection_eq. exact Hs.
  - rewrite (get_high_delay_ms_impl_eq _ _ _ _ _ _ _ Hs).
    cbn [ret fst snd stats is_high_delay_call is_high_delay_active
         is_below_low_call is_below_low_active bump].
    destruct (Z.eqb_spec (over_high_ms cfg) 0) as [E|E]; cbn [negb andb].
    + reflexivity.
    + destruct (is_protection_active t m); [|reflexivity].
      apply Z.eqb_neq in E. rewrite E. reflexivity.
Qed.

Lemma invoke_wf cfg c t m : wf_maps m -> wf_maps (snd (invoke cfg c t m)).
Proof.
  intros Hwf.
  destruct (wf_maps_inv _ Hwf) as (d & ts & c0 & c1 & c2 & c3 & Ha & Ht & Hs).
  pose proof (invoke_stats cfg c t m _ _ _ _ Hs) as Hst. cbv zeta in Hst.
  destruct c as [ctx| | |].
  - unfold wf_maps. rewrite Hst. unfold invoke, bind.
    destruct (not_of_interest cfg ctx) eqn:Hn.
    + rewrite handle_count_memcg_events_skip by exact Hn.
      cbn. rewrite Ha, Ht. auto.
    + unfold handle_count_memcg_events, bind, bpf_map_lookup_elem,
        bpf_ktime_get_ns, store_aggregation, update_trigger_ts, ret.
      rewrite Hn, Ha. change (Z.to_nat 0) with 0%nat. cbn [lookup list_lookup].
      destruct (threshold cfg <? sum (accumulate d t (ctx_val ctx)));
        cbn; rewrite ?Ha, ?Ht; auto.
  - destruct (callback_frame cfg BelowLow t m) as [Ha' Ht']; [discriminate|].
    unfold wf_maps. rewrite Ha', Ht', Hst, Ha, Ht. auto.
  - destruct (callback_frame cfg BelowMin t m) as [Ha' Ht']; [discriminate|].
    unfold wf_maps. rewrite Ha', Ht', Hst, Ha, Ht. auto.
  - destruct (callback_frame cfg GetHighDelayMs t m) as [Ha' Ht']; [discriminate|].
    unfold wf_maps. rewrite Ha', Ht', Hst, Ha, Ht. auto.
Qed.

Lemma run_cons cfg t c tr m :
  run cfg ((t, c) :: tr) m =
  ((c, fst (invoke cfg c t m)) :: fst (run cfg tr (snd (invoke cfg c t m))),
   snd (run cfg tr (snd (invoke cfg c t m)))).
Proof.
  cbn [run]. destruct (invoke cfg c t m) as [r m1].
  cbn [fst snd]. destruct (run cfg tr m1). reflexivity.
Qed.

Lemma run_app cfg tr1 tr2 m :
  run cfg (tr1 ++ tr2) m =
  (fst (run cfg tr1 m) ++ fst (run cfg tr2 (snd (run cfg tr1 m))),
   snd (run cfg tr2 (snd (run cfg tr1 m)))).
Proof.
  revert m. induction tr1 as [|[t c] tr1 IH]; intros m.
  - cbn. now destruct (run cfg tr2 m).
  - rewrite <- app_comm_cons, !run_cons, IH. reflexivity.
Qed.

Lemma run_wf cfg tr m : wf_maps m -> wf_maps (snd (run cfg tr m)).
Proof.
  revert m. induction tr as [|[t c] tr IH]; intros m Hwf; [exact Hwf|].
  rewrite run_cons. cbn [snd]. apply IH, invoke_wf, Hwf.
Qed.

Lemma run_length cfg tr m : length (fst (run cfg tr m)) = length tr.
Proof.
  revert m. induction tr as [|[t c] tr IH]; intros m; [reflexivity|].
  rewrite run_cons. cbn. now rewrite IH.
Qed.

(** ** The counters over a sequence of invocations *)

Lemma bump_wrap a b : bump (U64.wrap a) b = U64.wrap (a + if b then 1 else 0).
Proof.
  unfold bump. destruct b.
  - apply u64_add_wrap_l.
  - now rewrite Z.add_0_r.
Qed.

Lemma count_nonneg p log : 0 <= count p log.
Proof. induction log as [|e log IH]; cbn [count]; [|destruct (p e)]; lia. Qed.

Lemma count_le_length p log : count p log <= Z.of_nat (length log).
Proof.
  induction log as [|e log IH]; cbn [count length]; [|destruct (p e)]; lia.
Qed.

Lemma count_app p l1 l2 : count p (l1 ++ l2) = count p l1 + count p l2.
Proof.
  induction l1 as [|e l1 IH]; [reflexivity|].
  rewrite <- app_comm_cons. cbn [count]. rewrite IH. lia.
Qed.

(** Each counter is the number of calls it counts, modulo [2 ^ 64]. *)
Lemma run_stats_wrap cfg tr : forall m a0 a1 a2 a3,
  stats m = [U64.wrap a0; U64.wrap a1; U64.wrap a2; U64.wrap a3] ->
  stats (snd (run cfg tr m)) =
  [U64.wrap (a0 + count is_high_delay_call (fst (run cfg tr m)));
   U64.wrap (a1 + count is_high_delay_active (fst (run cfg tr m)));
   U64.wrap (a2 + count is_below_low_call (fst (run cfg tr m)));
   U64.wrap (a3 + count is_below_low_active (fst (run cfg tr m)))].
Proof.
  induction tr as [|[t c] tr IH]; intros m a0 a1 a2 a3 Hs.
  - cbn [run fst snd count]. now rewrite !Z.add_0_r.
  - rewrite run_cons. cbn [fst snd count].
    pose proof (invoke_stats cfg c t m _ _ _ _ Hs) as Hst. cbv zeta in Hst.
    rewrite !bump_wrap in Hst.
    rewrite (IH _ _ _ _ _ Hst), !Z.add_assoc. reflexivity.
Qed.

Lemma run_stats_initial cfg tr :
  stats (snd (run cfg tr initial_maps)) =
  [U64.wrap (count is_high_delay_call (fst (run cfg tr initial_maps)));
   U64.wrap (count is_high_delay_active (fst (run cfg tr initial_maps)));
   U64.wrap (count is_below_low_call (fst (run cfg tr initial_maps)));
   U64.wrap (count is_below_low_active (fst (run cfg tr initial_maps)))].
Proof. apply (run_stats_wrap cfg tr initial_maps 0 0 0 0). reflexivity. Qed.

Lemma count_small p cfg tr m :
  Z.of_nat (length tr) < U64.modulus ->
  U64.wrap (count p (fst (run cfg tr m))) = count p (fst (run cfg tr m)).
Proof.
  intros Hlen. apply u64_wrap_small. unfold U64.in_range.
  pose proof (count_nonneg p (fst (run cfg tr m))).
  pose proof (count_le_length p (fst (run cfg tr m))) as Hle.
  rewrite run_length in Hle. lia.
Qed.

(** C8, amended. Starting from the zeroed maps, after any sequence of fewer
    than [2 ^ 64] invocations of the handler and the three callbacks, each
    counter is exactly the number of calls it counts: the calls of
    [get_high_delay_ms_impl], those of them that returned a delay other than
    0, the calls of [below_low_impl], and those of them that returned
    [true]. No counter is lower after the whole sequence than it was after
    a prefix of it. *)
Theorem counters_count_calls (cfg : memcg_priority_config)
    (tr1 tr2 : list (Z * call)) :
  Z.of_nat (length (tr1 ++ tr2)) < U64.modulus ->
  let log := fst (run cfg (tr1 ++ tr2) initial_maps) in
  stats (snd (run cfg (tr1 ++ tr2) initial_maps)) =
  [count is_high_delay_call log; count is_high_delay_active log;
   count is_below_low_call log; count is_below_low_active log] /\
  Forall2 Z.le (stats (snd (run cfg tr1 initial_maps)))
               (stats (snd (run cfg (tr1 ++ tr2) initial_maps))).
Proof.
  intros Hlen log. subst log.
  assert (Z.of_nat (length tr1) < U64.modulus) as Hlen1.
  { rewrite length_app in Hlen. lia. }
  rewrite (run_stats_initial cfg (tr1 ++ tr2)), (run_stats_initial cfg tr1).
  rewrite !(count_small _ _ _ _ Hlen), !(count_small _ _ _ _ Hlen1).
  split; [reflexivity|].
  rewrite run_app. cbn [fst]. rewrite !count_app.
  repeat constructor;
    match goal with
    | |- _ <= _ + count ?p ?l => pose proof (count_nonneg p l); lia
    end.
Qed.

(** A sequence of [n] calls of [get_high_delay_ms_impl]. *)
Lemma count_repeat_high_delay cfg t n : forall m,
  count is_high_delay_call (fst (run cfg (repeat (t, GetHighDelayMs) n) m))
  = Z.of_nat n.
Proof.
  induction n as [|n IH]; intros m; [reflexivity|].
  change (repeat (t, GetHighDelayMs) (S n))
    with ((t, GetHighDelayMs) :: repeat (t, GetHighDelayMs) n).
  rewrite run_cons. cbn [fst count is_high_delay_call]. rewrite IH. lia.
Qed.

Lemma run_repeat_high_delay cfg t n :
  stats (snd (run cfg (repeat (t, GetHighDelayMs) n) initial_maps)) !! 0%nat
  = Some (U64.wrap (Z.of_nat n)).
Proof.
  rewrite run_stats_initial, count_repeat_high_delay. reflexivity.
Qed.

(** C8 as stated fails: after [2 ^ 64] calls of [get_high_delay_ms_impl]
    from the zeroed maps the [__u64] counter of these calls is back at 0,
    below the [2 ^ 64 - 1] it held one call earlier and not the number of
    calls made. *)
Lemma counters_wrap_around :
  count is_high_delay_call
    (fst (run sample_config
            (repeat (0, GetHighDelayMs) (Z.to_nat U64.modulus)) initial_maps))
  = 2 ^ 64 /\
  stats (snd (run sample_config
                (repeat (0, GetHighDelayMs) (Z.to_nat U64.modulus))
                initial_maps)) !! 0%nat
  = Some 0 /\
  stats (snd (run sample_config
                (repeat (0, GetHighDelayMs) (Z.to_nat (U64.modulus - 1)))
                initial_maps)) !! 0%nat
  = Some (2 ^ 64 - 1).
Proof.
  rewrite count_repeat_high_delay, !run_repeat_high_delay.
  rewrite !Z2Nat.id by (unfold U64.modulus; lia).
  repeat split.
Qed.

(** ** The window sum never stays above the threshold *)

(** After the handler has run, whatever the event and from whatever maps
    that have their slots and a window sum within the threshold, the window
    sum is within the threshold. *)
Lemma invoke_window_bounded cfg c t m d :
  0 <= threshold cfg ->
  wf_maps m ->
  aggregation_map m = [d] ->
  sum d <= threshold cfg ->
  exists d', aggregation_map (snd (invoke cfg c t m)) = [d'] /\
             sum d' <= threshold cfg.
Proof.
  intros Hth Hwf Ha Hd.
  destruct c as [ctx| | |].
  - unfold invoke, bind.
    destruct (not_of_interest cfg ctx) eqn:Hn.
    + rewrite handle_count_memcg_events_skip by exact Hn.
      exists d. now split.
    + destruct (wf_maps_inv _ Hwf) as (d0 & ts & c0 & c1 & c2 & c3 & Ha0 & Ht & Hs).
      unfold handle_count_memcg_events, bind, bpf_map_lookup_elem,
        bpf_ktime_get_ns, store_aggregation, update_trigger_ts, ret.
      rewrite Hn, Ha. change (Z.to_nat 0) with 0%nat. cbn [lookup list_lookup].
      destruct (Z.ltb_spec (threshold cfg) (sum (accumulate d t (ctx_val ctx))))
        as [Hlt|Hge]; cbn; rewrite ?Ha.
      * exists {| sum := 0; window_start_ts := t |}. now split.
      * exists (accumulate d t (ctx_val ctx)). now split.
  - destruct (callback_frame cfg BelowLow t m) as [Ha' _]; [discriminate|].
    exists d. rewrite Ha'. now split.
  - destruct (callback_frame cfg BelowMin t m) as [Ha' _]; [discriminate|].
    exists d. rewrite Ha'. now split.
  - destruct (callback_frame cfg GetHighDelayMs t m) as [Ha' _]; [discriminate|].
    exists d. rewrite Ha'. now split.
Qed.

Lemma run_window_bounded cfg tr : forall m d,
  0 <= threshold cfg ->
  wf_maps m ->
  aggregation_map m = [d] ->
  sum d <= threshold cfg ->
  exists d', aggregation_map (snd (run cfg tr m)) = [d'] /\
             sum d' <= threshold cfg.
Proof.
  induction tr as [|[t c] tr IH]; intros m d Hth Hwf Ha Hd.
  - exists d. now split.
  - rewrite run_cons. cbn [snd].
    destruct (invoke_window_bounded cfg c t m d Hth Hwf Ha Hd) as (d' & Ha' & Hd').
    apply (IH _ d' Hth (invoke_wf cfg c t m Hwf) Ha' Hd').
Qed.

(** C9. Starting from the zeroed maps, with a threshold that is a [__u64]
    value, after every invocation of any sequence of invocations (the
    handler's among them) the window sum is at most the threshold. *)
Theorem window_sum_within_threshold (cfg : memcg_priority_config)
    (tr : list (Z * call)) :
  0 <= threshold cfg < 2 ^ 64 ->
  exists d, aggregation_map (snd (run cfg tr initial_maps)) = [d] /\
            sum d <= threshold cfg.
Proof.
  intros [Hth _].
  apply (run_window_bounded cfg tr initial_maps {| sum := 0; window_start_ts := 0 |}).
  - exact Hth.
  - exact wf_initial_maps.
  - reflexivity.
  - exact Hth.
Qed.

(** ** The statements at sample inputs *)

Lemma crossing_triggers_protection_witness :
  handle_count_memcg_events sample_config (page_fault 11) 5 initial_maps =
  (0, {| aggregation_map := [ {| sum := 0; window_start_ts := 5 |} ];
         trigger_ts_map := [ 5 ];
         stats := [ 0; 0; 0; 0 ] |}) /\
  trigger_timestamp
    {| aggregation_map := [ {| sum := 0; window_start_ts := 5 |} ];
       trigger_ts_map := [ 5 ];
       stats := [ 0; 0; 0; 0 ] |} = Some 5 /\
  (forall d, 0 <= d < U64.modulus ->
     is_protection_active (U64.add 5 d)
       {| aggregation_map := [ {| sum := 0; window_start_ts := 5 |} ];
          trigger_ts_map := [ 5 ];
          stats := [ 0; 0; 0; 0 ] |} = (d <? ONE_SECOND_NS)) /\
  (forall now', 5 <= now' < U64.modulus ->
     is_protection_active now'
       {| aggregation_map := [ {| sum := 0; window_start_ts := 5 |} ];
          trigger_ts_map := [ 5 ];
          stats := [ 0; 0; 0; 0 ] |} = (now' - 5 <? ONE_SECOND_NS)).
Proof.
  destruct (crossing_triggers_protection sample_config (page_fault 11) 5
              initial_maps {| sum := 0; window_start_ts := 0 |}
              (conj eq_refl eq_refl) wf_initial_maps eq_refl eq_refl)
    as [Heffect Hactive].
  destruct Hactive as (Htrig & Hnext & Hlater); [discriminate|].
  split; [exact Heffect|]. split; [exact Htrig|]. split; [exact Hnext|].
  intros now' [Hle Hlt]. apply Hlater; [|exact Hlt].
  split; [discriminate | exact Hle].
Defined.

(** C1 as stated fails: page faults above the threshold delivered while the
    clock reads 0 are a crossing, and the handler stores the clock value, but
    protection is not active at that clock value nor within the second that
    follows. *)
Lemma crossing_at_clock_zero :
  relevant sample_config (page_fault 11) /\
  threshold sample_config <
    sum (accumulate {| sum := 0; window_start_ts := 0 |} 0 (ctx_val (page_fault 11))) /\
  handle_count_memcg_events sample_config (page_fault 11) 0 initial_maps =
  (0, {| aggregation_map := [ {| sum := 0; window_start_ts := 0 |} ];
         trigger_ts_map := [ 0 ];
         stats := [ 0; 0; 0; 0 ] |}) /\
  is_protection_active 0
    (snd (handle_count_memcg_events sample_config (page_fault 11) 0 initial_maps))
  = false /\
  is_protection_active 999999999
    (snd (handle_count_memcg_events sample_config (page_fault 11) 0 initial_maps))
  = false.
Proof. repeat split. Qed.

Lemma window_accumulation_witness :
  (6 <= 10 ->
   handle_count_memcg_events sample_config (page_fault 6) 5 initial_maps =
   (0, {| aggregation_map := [ {| sum := 6; window_start_ts := 0 |} ];
          trigger_ts_map := [ 0 ];
          stats := [ 0; 0; 0; 0 ] |})) /\
  (10 < 6 ->
   aggregation_map
     (snd (handle_count_memcg_events sample_config (page_fault 6) 5 initial_maps)) =
   [ {| sum := 0; window_start_ts := 5 |} ]).
Proof.
  apply (window_accumulation sample_config (page_fault 6) 5 initial_maps
           {| sum := 0; window_start_ts := 0 |}).
  - split; reflexivity.
  - exact wf_initial_maps.
  - reflexivity.
Defined.

Lemma get_high_delay_ms_impl_spec_witness :
  get_high_delay_ms_impl sample_config 7
    {| aggregation_map := [ {| sum := 0; window_start_ts := 5 |} ];
       trigger_ts_map := [ 5 ];
       stats := [ 3; 1; 4; 2 ] |} =
  (2000,
   {| aggregation_map := [ {| sum := 0; window_start_ts := 5 |} ];
      trigger_ts_map := [ 5 ];
      stats := [ 4; 2; 4; 2 ] |}).
Proof.
  apply (get_high_delay_ms_impl_spec sample_config 7
           {| aggregation_map := [ {| sum := 0; window_start_ts := 5 |} ];
              trigger_ts_map := [ 5 ];
              stats := [ 3; 1; 4; 2 ] |} 3 1 4 2).
  - split; [discriminate | reflexivity].
  - reflexivity.
Defined.

Lemma below_low_impl_spec_witness :
  below_low_impl sample_config 7
    {| aggregation_map := [ {| sum := 0; window_start_ts := 5 |} ];
       trigger_ts_map := [ 5 ];
       stats := [ 3; 1; 4; 2 ] |} =
  (true,
   {| aggregation_map := [ {| sum := 0; window_start_ts := 5 |} ];
      trigger_ts_map := [ 5 ];
      stats := [ 3; 1; 5; 3 ] |}).
Proof.
  apply (below_low_impl_spec sample_config 7
           {| aggregation_map := [ {| sum := 0; window_start_ts := 5 |} ];
              trigger_ts_map := [ 5 ];
              stats := [ 3; 1; 4; 2 ] |} 3 1 4 2).
  reflexivity.
Defined.

Lemma irrelevant_event_noop_witness :
  handle_count_memcg_events sample_config
    {| ctx_id := 42; ctx_item := 24; ctx_val := 1000 |} 5 initial_maps
  = (0, initial_maps).
Proof.
  apply (irrelevant_event_noop sample_config
           {| ctx_id := 42; ctx_item := 24; ctx_val := 1000 |} 5 initial_maps).
  right. discriminate.
Defined.

Lemma counters_count_calls_witness :
  stats (snd (run sample_config
                ([(5, CountMemcgEvents (page_fault 11)); (6, BelowLow)]
                 ++ [(7, GetHighDelayMs); (1000000005, BelowLow)])
                initial_maps)) =
  [ 1; 1; 2; 1 ] /\
  Forall2 Z.le [ 0; 0; 1; 1 ] [ 1; 1; 2; 1 ].
Proof.
  apply (counters_count_calls sample_config
           [(5, CountMemcgEvents (page_fault 11)); (6, BelowLow)]
           [(7, GetHighDelayMs); (1000000005, BelowLow)]).
  reflexivity.
Defined.

Lemma window_sum_within_threshold_witness :
  exists d,
    aggregation_map
      (snd (run sample_config
              [(5, CountMemcgEvents (page_fault 6)); (7, CountMemcgEvents (page_fault 3))]
              initial_maps)) = [d] /\
    sum d <= threshold sample_config.
Proof.
  apply (window_sum_within_threshold sample_config
           [(5, CountMemcgEvents (page_fault 6)); (7, CountMemcgEvents (page_fault 3))]).
  split; [discriminate | reflexivity].
Defined.

Lemma zero_timestamp_is_no_crossing_witness :
  (forall now m0, trigger_ts_map m0 !! 0%nat = Some 0 ->
     need_protection now m0 = (false, m0)) /\
  trigger_ts_map
    (snd (handle_count_memcg_events sample_config (page_fault 11) 0 initial_maps))
  = trigger_ts_map initial_maps /\
  trigger_timestamp
    (snd (handle_count_memcg_events sample_config (page_fault 11) 0 initial_maps))
  = None /\
  forall now,
    need_protection now
      (snd (handle_count_memcg_events sample_config (page_fault 11) 0 initial_maps))
    = (false,
       snd (handle_count_memcg_events sample_config (page_fault 11) 0 initial_maps)).
Proof.
  apply (zero_timestamp_is_no_crossing sample_config (page_fault 11) initial_maps
           {| sum := 0; window_start_ts := 0 |}).
  - split; reflexivity.
  - exact wf_initial_maps.
  - reflexivity.
  - reflexivity.
Defined.

(** ** The recorded timestamp over a sequence of invocations *)

Lemma invoke_trigger_ts cfg c t m ts0 :
  wf_maps m ->
  trigger_ts_map m = [ts0] ->
  trigger_ts_map (snd (invoke cfg c t m)) =
  [if crosses cfg c t m then t else ts0].
Proof.
  intros Hwf Ht.
  destruct c as [ctx| | |].
  - unfold invoke, bind, crosses.
    destruct (not_of_interest cfg ctx) eqn:Hn; cbn [negb andb].
    + rewrite handle_count_memcg_events_skip by exact Hn. exact Ht.
    + destruct (wf_maps_inv _ Hwf) as (d & ts & c0 & c1 & c2 & c3 & Ha & _ & _).
      unfold handle_count_memcg_events, bind, bpf_map_lookup_elem,
        bpf_ktime_get_ns, store_aggregation, update_trigger_ts, ret.
      rewrite Hn, Ha. change (Z.to_nat 0) with 0%nat. cbn [lookup list_lookup].
      destruct (threshold cfg <? sum (accumulate d t (ctx_val ctx)));
        cbn; rewrite ?Ht; reflexivity.
  - destruct (callback_frame cfg BelowLow t m) as [_ Ht']; [discriminate|].
    rewrite Ht'. exact Ht.
  - destruct (callback_frame cfg BelowMin t m) as [_ Ht']; [discriminate|].
    rewrite Ht'. exact Ht.
  - destruct (callback_frame cfg GetHighDelayMs t m) as [_ Ht']; [discriminate|].
    rewrite Ht'. exact Ht.
Qed.

Lemma last_cons_default (a d : Z) l : List.last (a :: l) d = List.last l a.
Proof.
  revert a d. induction l as [|b l IH]; intros a d; [reflexivity|].
  change (List.last (a :: b :: l) d) with (List.last (b :: l) d).
  now rewrite (IH b d), (IH b a).
Qed.

Lemma run_trigger_ts cfg tr : forall m ts0,
  wf_maps m ->
  trigger_ts_map m = [ts0] ->
  trigger_ts_map (snd (run cfg tr m)) = [List.last (crossings cfg tr m) ts0].
Proof.
  induction tr as [|[t c] tr IH]; intros m ts0 Hwf Ht; [exact Ht|].
  rewrite run_cons. cbn [snd crossings].
  rewrite (IH _ _ (invoke_wf cfg c t m Hwf) (invoke_trigger_ts cfg c t m ts0 Hwf Ht)).
  destruct (crosses cfg c t m); cbn [app].
  - now rewrite last_cons_default.
  - reflexivity.
Qed.

(** X1. Starting from the zeroed maps, slot 0 of [trigger_ts_map] holds the clock
    value of the most recent crossing, and 0 when there was none; as long as
    no invocation was a crossing, [need_protection] answers [false]. *)
Theorem trigger_ts_is_last_crossing (cfg : memcg_priority_config)
    (tr : list (Z * call)) :
  trigger_ts_map (snd (run cfg tr initial_maps)) =
  [List.last (crossings cfg tr initial_maps) 0] /\
  (crossings cfg tr initial_maps = [] ->
   forall now, is_protection_active now (snd (run cfg tr initial_maps)) = false).
Proof.
  pose proof (run_trigger_ts cfg tr initial_maps 0 wf_initial_maps eq_refl) as H.
  split; [exact H|].
  intros Hnone now.
  rewrite is_protection_active_trigger. unfold trigger_timestamp.
  rewrite H, Hnone. reflexivity.
Qed.

(** ** More on the programs: frames, missing slots, answers *)

(** X2. Whatever the event, the clock and the maps (with or without their
    slots), the handler returns 0 and leaves every counter of [stats] as it
    was. *)
Theorem handler_returns_zero_keeps_stats (cfg : memcg_priority_config)
    (ctx : trace_event_raw_memcg_rstat_events) (now : Z) (m : maps) :
  fst (handle_count_memcg_events cfg ctx now m) = 0 /\
  stats (snd (handle_count_memcg_events cfg ctx now m)) = stats m.
Proof.
  split; [|apply handle_count_memcg_events_stats].
  unfold handle_count_memcg_events, bind, bpf_map_lookup_elem,
    bpf_ktime_get_ns, store_aggregation, update_trigger_ts, ret.
  destruct (not_of_interest cfg ctx); [reflexivity|].
  destruct (aggregation_map m !! Z.to_nat 0) as [data|]; [|reflexivity].
  destruct (threshold cfg <? sum (accumulate data now (ctx_val ctx)));
    reflexivity.
Qed.

Lemma stat_fetch_and_add_active key v t now m :
  is_protection_active now (snd (stat_fetch_and_add key v t m))
  = is_protection_active now m.
Proof.
  apply is_protection_active_ext, (stat_fetch_and_add_frame key v t m).
Qed.

Lemma stat_fetch_and_add_length key v t m :
  length (stats (snd (stat_fetch_and_add key v t m))) = length (stats m).
Proof.
  unfold stat_fetch_and_add.
  destruct (stats m !! Z.to_nat key); [|reflexivity].
  cbn. apply length_insert.
Qed.

Lemma invoke_callback_maps cfg now m :
  snd (invoke cfg BelowLow now m) = snd (below_low_impl cfg now m) /\
  snd (invoke cfg BelowMin now m) = snd (below_min_impl cfg now m) /\
  snd (invoke cfg GetHighDelayMs now m) = snd (get_high_delay_ms_impl cfg now m).
Proof.
  unfold invoke, bind, ret.
  destruct (below_low_impl cfg now m), (below_min_impl cfg now m),
    (get_high_delay_ms_impl cfg now m).
  auto.
Qed.

(** X3. The three callbacks leave the window and the trigger timestamp alone,
    and keep the number of slots of [stats], whatever the maps. *)
Theorem callbacks_touch_stats_only (cfg : memcg_priority_config) (now : Z)
    (m : maps) :
  let stable (m' : maps) :=
    aggregation_map m' = aggregation_map m /\
    trigger_ts_map m' = trigger_ts_map m /\
    length (stats m') = length (stats m) in
  stable (snd (below_low_impl cfg now m)) /\
  stable (snd (below_min_impl cfg now m)) /\
  stable (snd (get_high_delay_ms_impl cfg now m)).
Proof.
  cbv zeta.
  destruct (invoke_callback_maps cfg now m) as (E1 & E2 & E3).
  destruct (callback_frame cfg BelowLow now m) as [Ha1 Ht1]; [discriminate|].
  destruct (callback_frame cfg BelowMin now m) as [Ha2 Ht2]; [discriminate|].
  destruct (callback_frame cfg GetHighDelayMs now m) as [Ha3 Ht3]; [discriminate|].
  rewrite E1 in Ha1, Ht1. rewrite E2 in Ha2, Ht2. rewrite E3 in Ha3, Ht3.
  repeat apply conj; try assumption.
  - unfold below_low_impl, bind.
    pose proof (stat_fetch_and_add_length STAT_BELOW_LOW_CALLS 1 now m) as H1.
    destruct (stat_fetch_and_add STAT_BELOW_LOW_CALLS 1 now m) as [[] m1].
    cbn [snd] in H1.
    destruct (use_below_low cfg =? 0); [exact H1|].
    rewrite need_protection_eq.
    destruct (is_protection_active now m1); [|exact H1].
    pose proof (stat_fetch_and_add_length STAT_BELOW_LOW_ACTIVE 1 now m1) as H2.
    destruct (stat_fetch_and_add STAT_BELOW_LOW_ACTIVE 1 now m1) as [[] m2].
    cbn [snd ret] in *. congruence.
  - unfold below_min_impl.
    destruct (use_below_min cfg =? 0); [reflexivity|].
    now rewrite need_protection_eq.
  - unfold get_high_delay_ms_impl, bind.
    pose proof (stat_fetch_and_add_length STAT_HIGH_DELAY_CALLS 1 now m) as H1.
    destruct (stat_fetch_and_add STAT_HIGH_DELAY_CALLS 1 now m) as [[] m1].
    cbn [snd] in H1.
    destruct (negb (over_high_ms cfg =? 0)); [|exact H1].
    rewrite need_protection_eq.
    destruct (is_protection_active now m1); [|exact H1].
    pose proof (stat_fetch_and_add_length STAT_HIGH_DELAY_ACTIVE 1 now m1) as H2.
    destruct (stat_fetch_and_add STAT_HIGH_DELAY_ACTIVE 1 now m1) as [[] m2].
    cbn [snd ret] in *. congruence.
Qed.

Lemma below_low_impl_answer cfg now m :
  fst (below_low_impl cfg now m) =
  negb (use_below_low cfg =? 0) && is_protection_active now m.
Proof.
  unfold below_low_impl, bind.
  pose proof (stat_fetch_and_add_active STAT_BELOW_LOW_CALLS 1 now now m) as Hact.
  destruct (stat_fetch_and_add STAT_BELOW_LOW_CALLS 1 now m) as [[] m1].
  cbn [snd] in Hact.
  destruct (use_below_low cfg =? 0); [reflexivity|].
  rewrite need_protection_eq, Hact. cbn [negb andb].
  destruct (is_protection_active now m); [|reflexivity].
  destruct (stat_fetch_and_add STAT_BELOW_LOW_ACTIVE 1 now m1) as [[] m2].
  reflexivity.
Qed.

Lemma below_min_impl_answer cfg now m :
  fst (below_min_impl cfg now m) =
  negb (use_below_min cfg =? 0) && is_protection_active now m.
Proof.
  unfold below_min_impl.
  destruct (use_below_min cfg =? 0); [reflexivity|].
  now rewrite need_protection_eq.
Qed.

Lemma get_high_delay_ms_impl_answer cfg now m :
  fst (get_high_delay_ms_impl cfg now m) =
  if negb (over_high_ms cfg =? 0) && is_protection_active now m
  then over_high_ms cfg else 0.
Proof.
  unfold get_high_delay_ms_impl, bind.
  pose proof (stat_fetch_and_add_active STAT_HIGH_DELAY_CALLS 1 now now m) as Hact.
  destruct (stat_fetch_and_add STAT_HIGH_DELAY_CALLS 1 now m) as [[] m1].
  cbn [snd] in Hact.
  destruct (negb (over_high_ms cfg =? 0)); [|reflexivity].
  rewrite need_protection_eq, Hact. cbn [andb].
  destruct (is_protection_active now m); [|reflexivity].
  destruct (stat_fetch_and_add STAT_HIGH_DELAY_ACTIVE 1 now m1) as [[] m2].
  reflexivity.
Qed.

(** X4. What the callbacks answer does not depend on [stats] or on the window:
    two maps with the same [trigger_ts_map] get the same answers, also when
    [stats] lacks slots and the increments are skipped. *)
Theorem answers_depend_on_trigger_ts_only (cfg : memcg_priority_config)
    (now : Z) (m m' : maps) :
  trigger_ts_map m = trigger_ts_map m' ->
  fst (below_low_impl cfg now m) = fst (below_low_impl cfg now m') /\
  fst (below_min_impl cfg now m) = fst (below_min_impl cfg now m') /\
  fst (get_high_delay_ms_impl cfg now m) = fst (get_high_delay_ms_impl cfg now m').
Proof.
  intros E.
  rewrite !below_low_impl_answer, !below_min_impl_answer,
    !get_high_delay_ms_impl_answer.
  rewrite (is_protection_active_ext now m m' E). auto.
Qed.

(** X5. LOW cgroups are throttled at exactly the clock values at which the
    HIGH cgroup is reported below [memory.low]: with [use_below_low] and
    [over_high_ms] both set, [get_high_delay_ms_impl] returns [over_high_ms]
    when [below_low_impl] answers [true] and 0 when it answers [false], for
    maps with the same trigger timestamp. *)
Theorem throttle_iff_protected (cfg : memcg_priority_config) (now : Z)
    (m m' : maps) :
  use_below_low cfg <> 0 ->
  over_high_ms cfg <> 0 ->
  trigger_ts_map m = trigger_ts_map m' ->
  fst (get_high_delay_ms_impl cfg now m) =
  (if fst (below_low_impl cfg now m') then over_high_ms cfg else 0) /\
  (fst (get_high_delay_ms_impl cfg now m) <> 0 <->
   fst (below_low_impl cfg now m') = true).
Proof.
  intros Hlow Hms E.
  rewrite below_low_impl_answer, get_high_delay_ms_impl_answer.
  rewrite (is_protection_active_ext now m m' E).
  apply Z.eqb_neq in Hlow. apply Z.eqb_neq in Hms as Hms'.
  rewrite Hlow, Hms'. cbn [negb andb].
  destruct (is_protection_active now m'); split; try reflexivity.
  - split; [reflexivity | intros _; exact Hms].
  - split; [intros H; now destruct H | discriminate].
Qed.

(** X6. When a lookup gives NULL the programs give up quietly: without slot 0
    in [aggregation_map] the handler changes nothing on any event; without
    slot 0 in [trigger_ts_map] protection is never active, so [below_low_impl]
    and [below_min_impl] answer [false] and [get_high_delay_ms_impl] returns
    0. *)
Theorem missing_slots (cfg : memcg_priority_config)
    (ctx : trace_event_raw_memcg_rstat_events) (now : Z) (m : maps) :
  (aggregation_map m !! 0%nat = None ->
   handle_count_memcg_events cfg ctx now m = (0, m)) /\
  (trigger_ts_map m !! 0%nat = None ->
   need_protection now m = (false, m) /\
   fst (below_low_impl cfg now m) = false /\
   fst (below_min_impl cfg now m) = false /\
   fst (get_high_delay_ms_impl cfg now m) = 0).
Proof.
  split.
  - intros Hnone.
    unfold handle_count_memcg_events.
    destruct (not_of_interest cfg ctx); [reflexivity|].
    unfold bind, bpf_map_lookup_elem.
    change (Z.to_nat 0) with 0%nat. rewrite Hnone. reflexivity.
  - intros Hnone.
    assert (is_protection_active now m = false) as Hact.
    { rewrite is_protection_active_trigger. unfold trigger_timestamp.
      now rewrite Hnone. }
    rewrite need_protection_eq, below_low_impl_answer, below_min_impl_answer,
      get_high_delay_ms_impl_answer, Hact, !andb_false_r.
    auto.
Qed.

(** ** The protection interval and the arithmetic of the window *)

Lemma u64_sub_cases a b :
  U64.in_range a -> U64.in_range b ->
  U64.sub a b = if b <=? a then a - b else a - b + U64.modulus.
Proof.
  unfold U64.in_range. intros Ha Hb.
  destruct (Z.leb_spec b a) as [Hle|Hlt].
  - apply u64_wrap_small. unfold U64.in_range. lia.
  - unfold U64.sub, U64.wrap.
    rewrite <- (Z.mod_add (a - b) 1 U64.modulus) by (unfold U64.modulus; lia).
    apply Z.mod_small. lia.
Qed.

Lemma u64_add_cases a b :
  U64.in_range a -> U64.in_range b ->
  U64.add a b = if a + b <? U64.modulus then a + b else a + b - U64.modulus.
Proof.
  unfold U64.in_range. intros Ha Hb.
  destruct (Z.ltb_spec (a + b) U64.modulus) as [Hlt|Hge].
  - apply u64_wrap_small. unfold U64.in_range. lia.
  - unfold U64.add, U64.wrap.
    rewrite <- (Z.mod_add (a + b) (-1) U64.modulus) by (unfold U64.modulus; lia).
    apply Z.mod_small. lia.
Qed.

(** X7. With a nonzero timestamp [ts] stored, protection is active at exactly
    the clock values of the second that starts at [ts], taken on the 64-bit
    clock: from [ts] up to, not including, [ts] plus one second, wrapping to
    0 after [2 ^ 64 - 1]. A clock value before [ts] that is not in the
    wrapped part gives inactive. *)
Theorem protection_interval (now : Z) (m : maps) (ts : Z) :
  trigger_ts_map m !! 0%nat = Some ts ->
  U64.in_range ts ->
  U64.in_range now ->
  is_protection_active now m = true <->
  ts <> 0 /\
  (ts <= now < ts + ONE_SECOND_NS \/ now + U64.modulus < ts + ONE_SECOND_NS).
Proof.
  intros Hts Hr Hn.
  rewrite is_protection_active_trigger. unfold trigger_timestamp.
  rewrite Hts.
  destruct (Z.eqb_spec ts 0) as [E|E].
  - split; [discriminate | intros [H _]; now destruct H].
  - rewrite (u64_sub_cases now ts Hn Hr), Z.ltb_lt.
    unfold U64.in_range in *.
    destruct (Z.leb_spec ts now); unfold ONE_SECOND_NS, U64.modulus in *; lia.
Qed.

(** The handler on an event that arrives within the window. *)
Lemma handle_in_window (cfg : memcg_priority_config)
    (ctx : trace_event_raw_memcg_rstat_events) (now : Z) (m : maps)
    (data : AggregationData) :
  relevant cfg ctx ->
  wf_maps m ->
  aggregation_map m !! 0%nat = Some data ->
  U64.sub now (window_start_ts data) < ONE_SECOND_NS ->
  U64.in_range (ctx_val ctx) ->
  0 <= sum data <= threshold cfg ->
  threshold cfg < U64.modulus ->
  let s := sum data + ctx_val ctx in
  let keep (s' : Z) :=
    {| aggregation_map := [ {| sum := s'; window_start_ts := window_start_ts data |} ];
       trigger_ts_map := trigger_ts_map m;
       stats := stats m |} in
  handle_count_memcg_events cfg ctx now m =
  (0,
   if s <=? threshold cfg then keep s
   else if s <? U64.modulus
        then {| aggregation_map := [ {| sum := 0; window_start_ts := now |} ];
                trigger_ts_map := [ now ];
                stats := stats m |}
        else keep (s - U64.modulus)).
Proof.
  intros Hrel Hwf Hd Hwin Hval Hsum Hth s keep.
  destruct (wf_maps_inv _ Hwf) as (d & t & c0 & c1 & c2 & c3 & Ha & Ht & Hs).
  rewrite Ha in Hd. injection Hd as ->.
  rewrite (handle_count_memcg_events_relevant _ _ _ _ data t Hrel Ha Ht).
  cbv zeta. unfold accumulate.
  apply Z.ltb_lt in Hwin. rewrite Hwin. cbn [sum window_start_ts].
  rewrite u64_add_cases by (unfold U64.in_range in *; lia).
  fold s. subst keep. cbv beta. rewrite Ht.
  unfold U64.in_range in Hval.
  destruct (Z.leb_spec s (threshold cfg)) as [Hle|Hgt].
  - replace (s <? U64.modulus) with true by (symmetry; apply Z.ltb_lt; lia).
    replace (threshold cfg <? s) with false by (symmetry; apply Z.ltb_ge; lia).
    reflexivity.
  - destruct (Z.ltb_spec s U64.modulus) as [Hlt|Hge].
    + replace (threshold cfg <? s) with true by (symmetry; apply Z.ltb_lt; lia).
      reflexivity.
    + replace (threshold cfg <? s - U64.modulus) with false
        by (symmetry; apply Z.ltb_ge; subst s; lia).
      reflexivity.
Qed.

(** X8. Within a window (less than one second since its start) the sum is a
    64-bit addition, for a window sum within the threshold: the handler
    keeps [sum + val] when that does not exceed the threshold, records a
    crossing when it does and is below [2 ^ 64], and when it reaches
    [2 ^ 64] keeps the wrapped sum, which is below the old sum, and records
    no crossing, however large [val] is. *)
Theorem in_window_sum (cfg : memcg_priority_config)
    (ctx : trace_event_raw_memcg_rstat_events) (now : Z) (m : maps)
    (data : AggregationData) :
  relevant cfg ctx ->
  wf_maps m ->
  aggregation_map m !! 0%nat = Some data ->
  U64.sub now (window_start_ts data) < ONE_SECOND_NS ->
  U64.in_range (ctx_val ctx) ->
  0 <= sum data <= threshold cfg ->
  threshold cfg < U64.modulus ->
  let s := sum data + ctx_val ctx in
  let keep (s' : Z) :=
    {| aggregation_map := [ {| sum := s'; window_start_ts := window_start_ts data |} ];
       trigger_ts_map := trigger_ts_map m;
       stats := stats m |} in
  handle_count_memcg_events cfg ctx now m =
  (0,
   if s <=? threshold cfg then keep s
   else if s <? U64.modulus
        then {| aggregation_map := [ {| sum := 0; window_start_ts := now |} ];
                trigger_ts_map := [ now ];
                stats := stats m |}
        else keep (s - U64.modulus)).
Proof. apply handle_in_window. Qed.

Lemma in_window_step cfg ctx t m s0 w :
  relevant cfg ctx ->
  wf_maps m ->
  aggregation_map m = [ {| sum := s0; window_start_ts := w |} ] ->
  U64.sub t w < ONE_SECOND_NS ->
  0 <= ctx_val ctx ->
  0 <= s0 ->
  s0 + ctx_val ctx <= threshold cfg ->
  threshold cfg < U64.modulus ->
  handle_count_memcg_events cfg ctx t m =
  (0, {| aggregation_map := [ {| sum := s0 + ctx_val ctx; window_start_ts := w |} ];
         trigger_ts_map := trigger_ts_map m;
         stats := stats m |}).
Proof.
  intros Hrel Hwf Ha Hwin Hval Hs0 Hle Hth.
  rewrite (handle_in_window cfg ctx t m {| sum := s0; window_start_ts := w |});
    cbn [sum window_start_ts]; try assumption.
  - replace (s0 + ctx_val ctx <=? threshold cfg) with true
      by (symmetry; apply Z.leb_le; lia).
    reflexivity.
  - rewrite Ha. reflexivity.
  - unfold U64.in_range. lia.
  - lia.
Qed.

(** ** Invariants of sequences of invocations *)

Lemma not_of_interest_false cfg ctx :
  not_of_interest cfg ctx = false -> relevant cfg ctx.
Proof.
  unfold not_of_interest, relevant, PGFAULT. intros H.
  apply orb_false_elim in H as [H1 H2].
  apply negb_false_iff in H1, H2.
  apply Z.eqb_eq in H1, H2. auto.
Qed.

Lemma bump_range c b : U64.in_range c -> U64.in_range (bump c b).
Proof. intros H. destruct b; [apply u64_wrap_range | exact H]. Qed.

Lemma invoke_range cfg c t m :
  wf_maps m -> range_maps m -> input_in_range (t, c) ->
  range_maps (snd (invoke cfg c t m)).
Proof.
  intros Hwf (Ra & Rt & Rs) [Ht Hc]. cbn [fst snd] in Ht, Hc.
  destruct (wf_maps_inv _ Hwf) as (d & ts & c0 & c1 & c2 & c3 & Ha & Hts & Hs).
  assert (range_maps_stats : Forall U64.in_range (stats (snd (invoke cfg c t m)))).
  { pose proof (invoke_stats cfg c t m _ _ _ _ Hs) as Hst. cbv zeta in Hst.
    rewrite Hst. rewrite Hs in Rs.
    apply Forall_cons in Rs as [R0 Rs]. apply Forall_cons in Rs as [R1 Rs].
    apply Forall_cons in Rs as [R2 Rs]. apply Forall_cons in Rs as [R3 _].
    repeat apply Forall_cons_2; try apply bump_range; try assumption.
    apply Forall_nil_2. }
  destruct c as [ctx| | |].
  - split; [|split; [|exact range_maps_stats]].
    + unfold invoke, bind.
      destruct (not_of_interest cfg ctx) eqn:Hn.
      * rewrite handle_count_memcg_events_skip by exact Hn. exact Ra.
      * rewrite (handle_count_memcg_events_relevant _ _ _ _ d ts
                   (not_of_interest_false _ _ Hn) Ha Hts).
        rewrite Ha in Ra. apply Forall_cons in Ra as [[Rsum Rstart] _].
        cbv zeta. cbn [ret fst snd].
        destruct (threshold cfg <? sum (accumulate d t (ctx_val ctx)));
          cbn [aggregation_map]; apply Forall_cons_2; try apply Forall_nil_2.
        -- split; [unfold U64.in_range, U64.modulus; cbn; lia | exact Ht].
        -- unfold accumulate.
           destruct (U64.sub t (window_start_ts d) <? ONE_SECOND_NS);
             cbn [sum window_start_ts]; split;
             try apply u64_wrap_range; assumption.
    + unfold invoke, bind.
      destruct (not_of_interest cfg ctx) eqn:Hn.
      * rewrite handle_count_memcg_events_skip by exact Hn. exact Rt.
      * rewrite (handle_count_memcg_events_relevant _ _ _ _ d ts
                   (not_of_interest_false _ _ Hn) Ha Hts).
        cbv zeta. cbn [ret fst snd].
        destruct (threshold cfg <? sum (accumulate d t (ctx_val ctx)));
          cbn [trigger_ts_map].
        -- apply Forall_cons_2; [exact Ht | apply Forall_nil_2].
        -- rewrite <- Hts. exact Rt.
  - destruct (callback_frame cfg BelowLow t m) as [Ha' Ht']; [discriminate|].
    split; [|split]; [rewrite Ha'; exact Ra | rewrite Ht'; exact Rt | exact range_maps_stats].
  - destruct (callback_frame cfg BelowMin t m) as [Ha' Ht']; [discriminate|].
    split; [|split]; [rewrite Ha'; exact Ra | rewrite Ht'; exact Rt | exact range_maps_stats].
  - destruct (callback_frame cfg GetHighDelayMs t m) as [Ha' Ht']; [discriminate|].
    split; [|split]; [rewrite Ha'; exact Ra | rewrite Ht'; exact Rt | exact range_maps_stats].
Qed.

Lemma run_range cfg tr : forall m,
  wf_maps m -> range_maps m -> Forall input_in_range tr ->
  range_maps (snd (run cfg tr m)).
Proof.
  induction tr as [|[t c] tr IH]; intros m Hwf Hr Hin; [exact Hr|].
  apply Forall_cons in Hin as [Hin1 Hin].
  rewrite run_cons. cbn [snd].
  apply IH; [apply invoke_wf, Hwf | apply invoke_range; assumption | exact Hin].
Qed.

(** X9. Starting from the zeroed maps, after any sequence of invocations whose
    clock values and event values are 64-bit values, the maps have their 1,
    1 and 4 slots and every value they store is a 64-bit value: the
    comparisons of the programs compare unsigned values. *)
Theorem run_keeps_slots_and_ranges (cfg : memcg_priority_config)
    (tr : list (Z * call)) :
  Forall input_in_range tr ->
  wf_maps (snd (run cfg tr initial_maps)) /\
  range_maps (snd (run cfg tr initial_maps)).
Proof.
  intros Hin. split.
  - apply run_wf, wf_initial_maps.
  - apply run_range; [exact wf_initial_maps | | exact Hin].
    unfold range_maps, initial_maps, U64.in_range, U64.modulus. cbn.
    repeat split; repeat apply Forall_cons_2; try apply Forall_nil_2;
      cbn; lia.
Qed.

(** ** Deliveries within one window *)

Lemma total_val_nonneg (evs : list (Z * trace_event_raw_memcg_rstat_events)) :
  Forall (fun e => 0 <= ctx_val (snd e)) evs -> 0 <= total_val evs.
Proof.
  induction 1 as [|e evs He _ IH]; cbn [total_val]; lia.
Qed.

Lemma total_val_app evs1 evs2 :
  total_val (evs1 ++ evs2) = total_val evs1 + total_val evs2.
Proof.
  induction evs1 as [|e evs1 IH]; [reflexivity|].
  rewrite <- app_comm_cons. cbn [total_val]. rewrite IH. lia.
Qed.

Lemma invoke_handler_maps cfg ctx t m :
  snd (invoke cfg (CountMemcgEvents ctx) t m)
  = snd (handle_count_memcg_events cfg ctx t m).
Proof.
  unfold invoke, bind, ret.
  now destruct (handle_count_memcg_events cfg ctx t m).
Qed.

Lemma run_deliver_in_window cfg w evs : forall m s0,
  wf_maps m ->
  aggregation_map m = [ {| sum := s0; window_start_ts := w |} ] ->
  0 <= s0 ->
  Forall (fun e => relevant cfg (snd e) /\
                   U64.sub (fst e) w < ONE_SECOND_NS /\
                   0 <= ctx_val (snd e)) evs ->
  s0 + total_val evs <= threshold cfg ->
  threshold cfg < U64.modulus ->
  snd (run cfg (deliver evs) m) =
  {| aggregation_map := [ {| sum := s0 + total_val evs; window_start_ts := w |} ];
     trigger_ts_map := trigger_ts_map m;
     stats := stats m |}.
Proof.
  induction evs as [|[t ctx] evs IH]; intros m s0 Hwf Ha Hs0 Hevs Htot Hth.
  - cbn [deliver map run snd total_val]. rewrite Z.add_0_r, <- Ha.
    now destruct m.
  - apply Forall_cons in Hevs as [(Hrel & Hwin & Hval) Hevs].
    cbn [fst snd] in Hrel, Hwin, Hval.
    assert (0 <= total_val evs) as Hnn.
    { apply total_val_nonneg. eapply Forall_impl; [exact Hevs|].
      intros e (_ & _ & H). exact H. }
    cbn [total_val snd] in Htot.
    change (deliver ((t, ctx) :: evs))
      with ((t, CountMemcgEvents ctx) :: deliver evs).
    rewrite run_cons. cbn [snd]. rewrite invoke_handler_maps.
    assert (Hstep : handle_count_memcg_events cfg ctx t m =
                    (0, {| aggregation_map :=
                             [ {| sum := s0 + ctx_val ctx; window_start_ts := w |} ];
                           trigger_ts_map := trigger_ts_map m;
                           stats := stats m |})).
    { rewrite (in_window_step cfg ctx t m s0 w); auto; lia. }
    assert (wf_maps (snd (handle_count_memcg_events cfg ctx t m))) as Hwf'.
    { rewrite <- invoke_handler_maps. apply invoke_wf, Hwf. }
    rewrite Hstep in Hwf' |- *. cbn [snd] in Hwf' |- *.
    rewrite (IH _ (s0 + ctx_val ctx) Hwf' eq_refl) by (assumption || lia).
    cbn [aggregation_map trigger_ts_map stats total_val snd].
    now rewrite Z.add_assoc.
Qed.

(** X10. The threshold applies to the total of a window. Events the handler
    counts, delivered less than one second after the start of the window and
    whose values add up, with the sum the window had, to no more than the
    threshold, leave that total as the window sum and record no crossing;
    the next such event that brings the total above the threshold (and
    below [2 ^ 64]) records the crossing at its clock value and resets the
    window. *)
Theorem threshold_on_window_total (cfg : memcg_priority_config) (m : maps)
    (s0 w : Z) (evs : list (Z * trace_event_raw_memcg_rstat_events))
    (e : Z * trace_event_raw_memcg_rstat_events) :
  wf_maps m ->
  aggregation_map m = [ {| sum := s0; window_start_ts := w |} ] ->
  0 <= s0 ->
  Forall (fun e => relevant cfg (snd e) /\
                   U64.sub (fst e) w < ONE_SECOND_NS /\
                   0 <= ctx_val (snd e)) (evs ++ [e]) ->
  s0 + total_val evs <= threshold cfg ->
  threshold cfg < U64.modulus ->
  snd (run cfg (deliver evs) m) =
  {| aggregation_map := [ {| sum := s0 + total_val evs; window_start_ts := w |} ];
     trigger_ts_map := trigger_ts_map m;
     stats := stats m |} /\
  (threshold cfg < s0 + total_val (evs ++ [e]) < U64.modulus ->
   snd (run cfg (deliver (evs ++ [e])) m) =
   {| aggregation_map := [ {| sum := 0; window_start_ts := fst e |} ];
      trigger_ts_map := [ fst e ];
      stats := stats m |}).
Proof.
  intros Hwf Ha Hs0 Hall Htot Hth.
  apply Forall_app in Hall as [Hevs He].
  apply Forall_cons in He as [(Hrel & Hwin & Hval) _].
  pose proof (run_deliver_in_window cfg w evs m s0 Hwf Ha Hs0 Hevs Htot Hth) as Hrun.
  split; [exact Hrun|].
  intros Hcross.
  rewrite total_val_app in Hcross. cbn [total_val] in Hcross.
  unfold deliver. rewrite map_app. fold (deliver evs).
  rewrite run_app. cbn [snd map]. rewrite Hrun.
  destruct e as [t ctx]. cbn [fst snd] in *.
  rewrite run_cons. cbn [run snd]. rewrite invoke_handler_maps.
  assert (0 <= total_val evs) as Hnn.
  { apply total_val_nonneg. eapply Forall_impl; [exact Hevs|].
    intros e (_ & _ & H). exact H. }
  assert (wf_maps (snd (run cfg (deliver evs) m))) as Hwf' by apply run_wf, Hwf.
  rewrite Hrun in Hwf'.
  rewrite (handle_in_window cfg ctx t _
             {| sum := s0 + total_val evs; window_start_ts := w |});
    cbn [sum window_start_ts aggregation_map trigger_ts_map stats];
    try assumption; try reflexivity; try (unfold U64.in_range; lia).
  replace (s0 + total_val evs + ctx_val ctx <=? threshold cfg) with false
    by (symmetry; apply Z.leb_gt; lia).
  replace (s0 + total_val evs + ctx_val ctx <? U64.modulus) with true
    by (symmetry; apply Z.ltb_lt; lia).
  reflexivity.
Qed.

(** ** Callbacks do not disturb the detection *)

Lemma handler_ext cfg ctx t m m' :
  aggregation_map m = aggregation_map m' ->
  trigger_ts_map m = trigger_ts_map m' ->
  aggregation_map (snd (handle_count_memcg_events cfg ctx t m)) =
  aggregation_map (snd (handle_count_memcg_events cfg ctx t m')) /\
  trigger_ts_map (snd (handle_count_memcg_events cfg ctx t m)) =
  trigger_ts_map (snd (handle_count_memcg_events cfg ctx t m')).
Proof.
  intros Ea Et.
  unfold handle_count_memcg_events, bind, bpf_map_lookup_elem,
    bpf_ktime_get_ns, store_aggregation, update_trigger_ts, ret.
  destruct (not_of_interest cfg ctx); [now split|].
  rewrite Ea.
  destruct (aggregation_map m' !! Z.to_nat 0) as [data|]; [|now split].
  destruct (threshold cfg <? sum (accumulate data t (ctx_val ctx)));
    cbn; rewrite Ea, ?Et; now split.
Qed.

Lemma run_events_only cfg tr : forall m m',
  aggregation_map m = aggregation_map m' ->
  trigger_ts_map m = trigger_ts_map m' ->
  aggregation_map (snd (run cfg tr m)) =
  aggregation_map (snd (run cfg (events_only tr) m')) /\
  trigger_ts_map (snd (run cfg tr m)) =
  trigger_ts_map (snd (run cfg (events_only tr) m')).
Proof.
  induction tr as [|[t c] tr IH]; intros m m' Ea Et; [now split|].
  rewrite run_cons. cbn [snd events_only].
  destruct c as [ctx| | |]; cbn [is_event snd].
  - rewrite run_cons. cbn [snd]. rewrite !invoke_handler_maps.
    destruct (handler_ext cfg ctx t m m' Ea Et) as [Ea' Et'].
    now apply IH.
  - destruct (callback_frame cfg BelowLow t m) as [Ea' Et']; [discriminate|].
    apply IH; congruence.
  - destruct (callback_frame cfg BelowMin t m) as [Ea' Et']; [discriminate|].
    apply IH; congruence.
  - destruct (callback_frame cfg GetHighDelayMs t m) as [Ea' Et']; [discriminate|].
    apply IH; congruence.
Qed.

(** X11. The callbacks have no influence on the detection: after any sequence
    of invocations the window and the trigger timestamp are what the
    handler's invocations alone, in the same order, would have left, and so
    is the answer of [need_protection]. *)
Theorem callbacks_do_not_disturb_detection (cfg : memcg_priority_config)
    (tr : list (Z * call)) (m : maps) (now : Z) :
  aggregation_map (snd (run cfg tr m)) =
  aggregation_map (snd (run cfg (events_only tr) m)) /\
  trigger_ts_map (snd (run cfg tr m)) =
  trigger_ts_map (snd (run cfg (events_only tr) m)) /\
  is_protection_active now (snd (run cfg tr m)) =
  is_protection_active now (snd (run cfg (events_only tr) m)).
Proof.
  destruct (run_events_only cfg tr m m eq_refl eq_refl) as [Ea Et].
  split; [exact Ea|]. split; [exact Et|].
  apply is_protection_active_ext, Et.
Qed.

(** ** The further statements at sample inputs *)

Lemma answers_depend_on_trigger_ts_only_witness :
  fst (below_low_impl sample_config 7
         {| aggregation_map := []; trigger_ts_map := [ 5 ]; stats := [] |}) =
  fst (below_low_impl sample_config 7
         {| aggregation_map := [ {| sum := 3; window_start_ts := 5 |} ];
            trigger_ts_map := [ 5 ]; stats := [ 1; 0; 9; 4 ] |}) /\
  fst (below_min_impl sample_config 7
         {| aggregation_map := []; trigger_ts_map := [ 5 ]; stats := [] |}) =
  fst (below_min_impl sample_config 7
         {| aggregation_map := [ {| sum := 3; window_start_ts := 5 |} ];
            trigger_ts_map := [ 5 ]; stats := [ 1; 0; 9; 4 ] |}) /\
  fst (get_high_delay_ms_impl sample_config 7
         {| aggregation_map := []; trigger_ts_map := [ 5 ]; stats := [] |}) =
  fst (get_high_delay_ms_impl sample_config 7
         {| aggregation_map := [ {| sum := 3; window_start_ts := 5 |} ];
            trigger_ts_map := [ 5 ]; stats := [ 1; 0; 9; 4 ] |}).
Proof.
  apply (answers_depend_on_trigger_ts_only sample_config 7
           {| aggregation_map := []; trigger_ts_map := [ 5 ]; stats := [] |}
           {| aggregation_map := [ {| sum := 3; window_start_ts := 5 |} ];
              trigger_ts_map := [ 5 ]; stats := [ 1; 0; 9; 4 ] |}).
  reflexivity.
Defined.

Lemma throttle_iff_protected_witness :
  fst (get_high_delay_ms_impl sample_config 7
         {| aggregation_map := []; trigger_ts_map := [ 5 ]; stats := [ 0; 0; 0; 0 ] |}) =
  (if fst (below_low_impl sample_config 7
             {| aggregation_map := []; trigger_ts_map := [ 5 ]; stats := [ 2; 2; 2; 2 ] |})
   then over_high_ms sample_config else 0) /\
  (fst (get_high_delay_ms_impl sample_config 7
          {| aggregation_map := []; trigger_ts_map := [ 5 ]; stats := [ 0; 0; 0; 0 ] |}) <> 0 <->
   fst (below_low_impl sample_config 7
          {| aggregation_map := []; trigger_ts_map := [ 5 ]; stats := [ 2; 2; 2; 2 ] |}) = true).
Proof.
  apply (throttle_iff_protected sample_config 7
           {| aggregation_map := []; trigger_ts_map := [ 5 ]; stats := [ 0; 0; 0; 0 ] |}
           {| aggregation_map := []; trigger_ts_map := [ 5 ]; stats := [ 2; 2; 2; 2 ] |}).
  - discriminate.
  - discriminate.
  - reflexivity.
Defined.

Lemma protection_interval_witness :
  is_protection_active 3
    {| aggregation_map := []; trigger_ts_map := [ 18446744073709551000 ]; stats := [] |}
  = true <->
  18446744073709551000 <> 0 /\
  (18446744073709551000 <= 3 < 18446744073709551000 + ONE_SECOND_NS \/
   3 + U64.modulus < 18446744073709551000 + ONE_SECOND_NS).
Proof.
  apply (protection_interval 3
           {| aggregation_map := []; trigger_ts_map := [ 18446744073709551000 ];
              stats := [] |} 18446744073709551000).
  - reflexivity.
  - split; [discriminate | reflexivity].
  - split; [discriminate | reflexivity].
Defined.

Lemma in_window_sum_witness :
  handle_count_memcg_events sample_config (page_fault 18446744073709551615) 7
    {| aggregation_map := [ {| sum := 4; window_start_ts := 5 |} ];
       trigger_ts_map := [ 0 ]; stats := [ 0; 0; 0; 0 ] |} =
  (0, {| aggregation_map := [ {| sum := 3; window_start_ts := 5 |} ];
         trigger_ts_map := [ 0 ]; stats := [ 0; 0; 0; 0 ] |}).
Proof.
  apply (in_window_sum sample_config (page_fault 18446744073709551615) 7
           {| aggregation_map := [ {| sum := 4; window_start_ts := 5 |} ];
              trigger_ts_map := [ 0 ]; stats := [ 0; 0; 0; 0 ] |}
           {| sum := 4; window_start_ts := 5 |}).
  - split; reflexivity.
  - repeat split.
  - reflexivity.
  - reflexivity.
  - split; [discriminate | reflexivity].
  - split; discriminate.
  - reflexivity.
Defined.

Lemma run_keeps_slots_and_ranges_witness :
  wf_maps (snd (run sample_config
                  [(5, CountMemcgEvents (page_fault 11)); (6, BelowLow)]
                  initial_maps)) /\
  range_maps (snd (run sample_config
                     [(5, CountMemcgEvents (page_fault 11)); (6, BelowLow)]
                     initial_maps)).
Proof.
  apply (run_keeps_slots_and_ranges sample_config
           [(5, CountMemcgEvents (page_fault 11)); (6, BelowLow)]).
  repeat apply Forall_cons_2; try apply Forall_nil_2;
    repeat split; discriminate.
Defined.

Lemma threshold_on_window_total_witness :
  snd (run sample_config (deliver [(5, page_fault 4); (6, page_fault 5)]) initial_maps) =
  {| aggregation_map := [ {| sum := 0 + 9; window_start_ts := 0 |} ];
     trigger_ts_map := [ 0 ];
     stats := [ 0; 0; 0; 0 ] |} /\
  (threshold sample_config <
     0 + total_val ([(5, page_fault 4); (6, page_fault 5)] ++ [(7, page_fault 3)])
     < U64.modulus ->
   snd (run sample_config
          (deliver ([(5, page_fault 4); (6, page_fault 5)] ++ [(7, page_fault 3)]))
          initial_maps) =
   {| aggregation_map := [ {| sum := 0; window_start_ts := 7 |} ];
      trigger_ts_map := [ 7 ];
      stats := [ 0; 0; 0; 0 ] |}).
Proof.
  apply (threshold_on_window_total sample_config initial_maps 0 0
           [(5, page_fault 4); (6, page_fault 5)] (7, page_fault 3)).
  - exact wf_initial_maps.
  - reflexivity.
  - discriminate.
  - repeat apply Forall_cons_2; try apply Forall_nil_2;
      repeat split; try reflexivity; discriminate.
  - discriminate.
  - reflexivity.
Defined.

(** * The loader: the option loop *)

Ltac eval_chr :=
  repeat match goal with
         | |- context [chr ?a =? chr ?b] =>
             let r := eval vm_compute in (chr a =? chr b) in
             change (chr a =? chr b) with r
         | H : context [chr ?a =? chr ?b] |- _ =>
             let r := eval vm_compute in (chr a =? chr b) in
             change (chr a =? chr b) with r in H
         end.

Lemma parsed_from_nil atoi strtoull o : parsed_from atoi strtoull o [] = o.
Proof. destruct o. unfold parsed_from. cbn. now rewrite app_nil_r. Qed.

Lemma last_arg_cons c opt arg toks :
  last_arg c ((opt, arg) :: toks) =
  if opt =? chr c
  then match last_arg c toks with Some a => Some a | None => Some arg end
  else last_arg c toks.
Proof.
  unfold last_arg. cbn [args_of fst snd].
  destruct (opt =? chr c); [|reflexivity].
  rewrite last_cons. reflexivity.
Qed.

(** The loop over options it stores, followed by anything. *)
Lemma parse_options_app atoi strtoull pre : forall o rest,
  Forall (fun tok => accepted tok = true) pre ->
  Z.of_nat (length (opt_low_paths o ++ args_of "L" pre)) <= MAX_LOW_CGROUPS ->
  parse_options atoi strtoull (pre ++ rest) o =
  parse_options atoi strtoull rest (parsed_from atoi strtoull o pre).
Proof.
  induction pre as [|[opt arg] pre IH]; intros o rest Hacc Hlen.
  - now rewrite parsed_from_nil.
  - apply Forall_cons in Hacc as [Hacc1 Hacc].
    unfold accepted in Hacc1. cbn [existsb fst] in Hacc1.
    rewrite <- app_comm_cons. cbn [parse_options].
    unfold parsed_from. rewrite !last_arg_cons. cbn [args_of given existsb fst snd].
    cbn [args_of fst snd] in Hlen.
    destruct (Z.eqb_spec opt (chr "H")) as [->|N1]; eval_chr.
    { rewrite IH; [|exact Hacc|exact Hlen]. unfold parsed_from. cbn.
      destruct (last_arg "H" pre); reflexivity. }
    destruct (Z.eqb_spec opt (chr "L")) as [->|N2]; eval_chr.
    { rewrite length_app in Hlen. cbn [length] in Hlen.
      replace (MAX_LOW_CGROUPS <=? Z.of_nat (length (opt_low_paths o))) with false
        by (symmetry; apply Z.leb_gt; lia).
      rewrite IH; [|exact Hacc|].
      - unfold parsed_from. cbn. rewrite <- app_assoc. reflexivity.
      - cbn [opt_low_paths]. rewrite <- app_assoc, length_app. cbn [app length]. lia. }
    destruct (Z.eqb_spec opt (chr "d")) as [->|N3]; eval_chr.
    { rewrite IH; [|exact Hacc|exact Hlen]. unfold parsed_from. cbn.
      destruct (last_arg "d" pre); reflexivity. }
    destruct (Z.eqb_spec opt (chr "t")) as [->|N4]; eval_chr.
    { rewrite IH; [|exact Hacc|exact Hlen]. unfold parsed_from. cbn.
      destruct (last_arg "t" pre); reflexivity. }
    destruct (Z.eqb_spec opt (chr "l")) as [->|N5]; eval_chr.
    { rewrite IH; [|exact Hacc|exact Hlen]. unfold parsed_from. cbn.
      destruct (given "l" pre); reflexivity. }
    destruct (Z.eqb_spec opt (chr "m")) as [->|N6]; eval_chr.
    { rewrite IH; [|exact Hacc|exact Hlen]. unfold parsed_from. cbn.
      destruct (given "m" pre); reflexivity. }
    destruct (Z.eqb_spec opt (chr "v")) as [->|N7]; eval_chr.
    { rewrite IH; [|exact Hacc|exact Hlen]. unfold parsed_from. cbn.
      destruct (given "v" pre); reflexivity. }
    discriminate Hacc1.
Qed.

(** X12. When every option is one the loop stores and at most [MAX_LOW_CGROUPS]
    of them are [--low], the loop ends with: the path of the last [--high]
    (NULL without one); the [--low] paths in the order given; the last
    [--delay-ms] through [atoi], as a [__u32], and the last [--threshold]
    through [strtoull], or the defaults 2000 and 1; each flag set when it
    was given. *)
Theorem parse_options_accepted (atoi strtoull : string -> Z)
    (toks : list (Z * string)) :
  Forall (fun tok => accepted tok = true) toks ->
  Z.of_nat (length (args_of "L" toks)) <= MAX_LOW_CGROUPS ->
  parse_options atoi strtoull toks default_options =
  ParseDone
    {| opt_high_path := last_arg "H" toks;
       opt_low_paths := args_of "L" toks;
       opt_delay_ms :=
         match last_arg "d" toks with
         | Some arg => to_u32 (atoi arg)
         | None => DEFAULT_DELAY_MS
         end;
       opt_threshold :=
         match last_arg "t" toks with
         | Some arg => U64.wrap (strtoull arg)
         | None => DEFAULT_THRESHOLD
         end;
       opt_use_below_low := if given "l" toks then 1 else 0;
       opt_use_below_min := if given "m" toks then 1 else 0;
       opt_verbose := if given "v" toks then 1 else 0 |}.
Proof.
  intros Hacc Hlen.
  rewrite <- (app_nil_r toks) at 1.
  rewrite parse_options_app by assumption.
  cbn [parse_options]. unfold parsed_from. cbn [default_options opt_high_path
    opt_low_paths opt_delay_ms opt_threshold opt_use_below_low
    opt_use_below_min opt_verbose app].
  destruct (last_arg "H" toks); reflexivity.
Qed.

(** The loop ends [main] at the first option that is [--help], that is not
    an option of the program, or that is a [--low] after [MAX_LOW_CGROUPS]
    of them. *)
Lemma parse_options_stops (atoi strtoull : string -> Z)
    (pre post : list (Z * string)) (opt : Z) (optarg : string) :
  Forall (fun tok => accepted tok = true) pre ->
  Z.of_nat (length (args_of "L" pre)) <= MAX_LOW_CGROUPS ->
  (opt = chr "h" ->
   parse_options atoi strtoull (pre ++ (opt, optarg) :: post) default_options
   = ParseReturn 0) /\
  (accepted (opt, optarg) = false -> opt <> chr "h" ->
   parse_options atoi strtoull (pre ++ (opt, optarg) :: post) default_options
   = ParseReturn 1) /\
  (opt = chr "L" -> Z.of_nat (length (args_of "L" pre)) = MAX_LOW_CGROUPS ->
   parse_options atoi strtoull (pre ++ (opt, optarg) :: post) default_options
   = ParseReturn 1).
Proof.
  intros Hacc Hlen.
  rewrite parse_options_app by assumption.
  cbn [parse_options]. repeat split.
  - intros ->. eval_chr. reflexivity.
  - intros Hno Hh. unfold accepted in Hno. cbn [existsb fst] in Hno.
    repeat (apply orb_false_elim in Hno as [E Hno]; rewrite E; clear E).
    apply Z.eqb_neq in Hh. now rewrite Hh.
  - intros -> Hfull. eval_chr.
    unfold parsed_from. cbn [opt_low_paths default_options app].
    replace (MAX_LOW_CGROUPS <=? Z.of_nat (length (args_of "L" pre))) with true
      by (symmetry; apply Z.leb_le; lia).
    reflexivity.
Qed.

Lemma to_u32_range x : 0 <= to_u32 x < 2 ^ 32.
Proof. unfold to_u32. apply Z.mod_pos_bound. reflexivity. Qed.

Lemma parse_options_ok atoi strtoull toks : forall o o',
  options_ok o ->
  parse_options atoi strtoull toks o = ParseDone o' ->
  options_ok o'.
Proof.
  induction toks as [|[opt arg] toks IH]; intros o o' Hok Hp.
  - cbn in Hp. now injection Hp as <-.
  - cbn [parse_options] in Hp.
    destruct Hok as (Hlen & Hd & Ht & Hl & Hm).
    repeat match type of Hp with
           | (if ?c then _ else _) = _ => destruct c eqn:?
           end;
      try discriminate Hp;
      apply IH in Hp; try exact Hp;
      unfold options_ok; cbn [opt_low_paths opt_delay_ms opt_threshold
        opt_use_below_low opt_use_below_min];
      repeat split; try tauto; try lia;
      try apply to_u32_range; try apply (u64_wrap_range (strtoull arg)).
    rewrite length_app. cbn [length]. lia.
Qed.

(** X13. Whenever the loop ends without ending [main], [low_count] is at most
    [MAX_LOW_CGROUPS], so the arrays [low_paths], [low_fds] and [low_links]
    are used within their bounds, [delay_ms] is a [__u32], [threshold] a
    [__u64], and the two flags are 0 or 1. *)
Theorem parse_options_within_bounds (atoi strtoull : string -> Z)
    (toks : list (Z * string)) (o : options) :
  parse_options atoi strtoull toks default_options = ParseDone o ->
  options_ok o.
Proof.
  apply parse_options_ok.
  unfold options_ok, default_options, MAX_LOW_CGROUPS, DEFAULT_DELAY_MS,
    DEFAULT_THRESHOLD. cbn. lia.
Qed.

(** * The loader: a logic for the part before [cleanup] *)

Section Preserves.

Variable R : vars -> vars -> Prop.
Variable Q : list event -> Prop.
Hypothesis R_refl : forall v, R v v.
Hypothesis R_trans : forall v1 v2 v3, R v1 v2 -> R v2 v3 -> R v1 v3.
Hypothesis Q_nil : Q [].
Hypothesis Q_app : forall l1 l2, Q l1 -> Q l2 -> Q (l1 ++ l2).

Lemma preserves_sret {A} (a : A) : preserves R Q (sret a).
Proof. intros v. split; [apply R_refl | apply Q_nil]. Qed.

Lemma preserves_goto {A} : preserves R Q (@goto_cleanup A).
Proof. intros v. split; [apply R_refl | apply Q_nil]. Qed.

Lemma preserves_read {A} (f : vars -> A) : preserves R Q (read f).
Proof. intros v. split; [apply R_refl | apply Q_nil]. Qed.

Lemma preserves_emit e : Q [e] -> preserves R Q (emit e).
Proof. intros He v. split; [apply R_refl | exact He]. Qed.

Lemma preserves_assign f : (forall v, R v (f v)) -> preserves R Q (assign f).
Proof. intros Hf v. split; [apply Hf | apply Q_nil]. Qed.

Lemma preserves_sbind {A B} (c : setup A) (k : A -> setup B) :
  preserves R Q c -> (forall a, preserves R Q (k a)) ->
  preserves R Q (sbind c k).
Proof.
  intros Hc Hk v. unfold sbind.
  destruct (Hc v) as [HR HQ].
  destruct (c v) as [[[a|] v1] evs1]; cbn [fst snd] in *.
  - destruct (Hk a v1) as [HR' HQ'].
    destruct (k a v1) as [[r v2] evs2]; cbn [fst snd] in *.
    split; [eapply R_trans; eassumption | now apply Q_app].
  - now split.
Qed.

End Preserves.

Ltac frame Rrefl Rtrans Qnil Qapp :=
  repeat (first
    [ apply (preserves_sbind _ _ Rtrans Qapp); [ | intros ? ]
    | apply (preserves_sret _ _ Rrefl Qnil)
    | apply (preserves_goto _ _ Rrefl Qnil)
    | apply (preserves_read _ _ Rrefl Qnil)
    | apply (preserves_emit _ _ Rrefl); repeat split
    | apply (preserves_assign _ _ Qnil); intros ?; repeat split
    | match goal with
      | |- preserves _ _ (if ?b then _ else _) => destruct b
      | |- preserves _ _ (match ?x with Some _ => _ | None => _ end) => destruct x
      end ]).

(** ** Descriptors *)

Lemma opened_app l1 l2 : opened (l1 ++ l2) = opened l1 ++ opened l2.
Proof. apply flat_map_app. Qed.

Lemma closed_app l1 l2 : closed (l1 ++ l2) = closed l1 ++ closed l2.
Proof. apply flat_map_app. Qed.

Lemma same_fds_refl v : same_fds v v.
Proof. now split. Qed.

Lemma same_fds_trans v1 v2 v3 : same_fds v1 v2 -> same_fds v2 v3 -> same_fds v1 v3.
Proof. intros [] []. split; congruence. Qed.

Lemma no_fd_calls_nil : no_fd_calls [].
Proof. now split. Qed.

Lemma no_fd_calls_app l1 l2 : no_fd_calls l1 -> no_fd_calls l2 -> no_fd_calls (l1 ++ l2).
Proof.
  intros [H1 H2] [H3 H4]. split.
  - now rewrite opened_app, H1, H3.
  - now rewrite closed_app, H2, H4.
Qed.

Ltac fd_frame :=
  frame same_fds_refl same_fds_trans no_fd_calls_nil no_fd_calls_app.

Lemma attach_low_cgroups_fds w paths : forall i,
  preserves same_fds no_fd_calls (attach_low_cgroups w i paths).
Proof.
  induction paths as [|p paths IH]; intros i; cbn [attach_low_cgroups]; fd_frame.
  apply IH.
Qed.

Lemma report_loop_fds n : preserves same_fds no_fd_calls (report_loop n).
Proof.
  induction n as [|n IH]; cbn [report_loop]; unfold lookup_stats; fd_frame.
  apply IH.
Qed.



Lemma after_open_fds w o high_path :
  preserves same_fds no_fd_calls
    (sbind (configure_and_load w o high_path)
       (fun _ => sbind (attach_all w o) (fun _ => report w))).
Proof.
  unfold configure_and_load, attach_all, report, get_cgroup_id, lookup_stats.
  fd_frame.
  - apply attach_low_cgroups_fds.
  - apply report_loop_fds.
Qed.

Lemma closed_cleanup n v :
  closed (cleanup n v) =
  (if 0 <=? high_fd v then [high_fd v] else []) ++ flat_map (close_low v) (seq 0 n).
Proof.
  unfold cleanup. rewrite !closed_app. cbn [closed flat_map app].
  assert (closed (map (fun i => EvLinkDestroy (low_links v !!! i)) (seq 0 n)) = []) as ->.
  { induction (seq 0 n) as [|i l IH]; [reflexivity | exact IH]. }
  cbn [app]. f_equal.
  - destruct (0 <=? high_fd v); reflexivity.
  - induction (seq 0 n) as [|i l IH]; [reflexivity|].
    cbn [flat_map]. rewrite closed_app, IH. f_equal.
    unfold close_low. destruct (0 <=? low_fds v !!! i); reflexivity.
Qed.

Lemma opened_cleanup n v : opened (cleanup n v) = [].
Proof.
  unfold cleanup. rewrite !opened_app. cbn [opened flat_map app].
  assert (opened (map (fun i => EvLinkDestroy (low_links v !!! i)) (seq 0 n)) = []) as ->.
  { induction (seq 0 n) as [|i l IH]; [reflexivity | exact IH]. }
  assert (opened (if 0 <=? high_fd v then [EvClose (high_fd v)] else []) = []) as ->.
  { destruct (0 <=? high_fd v); reflexivity. }
  cbn [app].
  induction (seq 0 n) as [|i l IH]; [reflexivity|].
  cbn [flat_map]. rewrite opened_app, IH.
  destruct (0 <=? low_fds v !!! i); reflexivity.
Qed.

Lemma flat_map_close_low_none v i n :
  (forall j, (i <= j < i + n)%nat -> low_fds v !!! j = -1) ->
  flat_map (close_low v) (seq i n) = [].
Proof.
  revert i. induction n as [|n IH]; intros i H; [reflexivity|].
  cbn [seq flat_map]. rewrite IH by (intros j Hj; apply H; lia).
  unfold close_low. rewrite (H i) by lia. reflexivity.
Qed.

Lemma flat_map_close_low_ext v v' i n :
  (forall j, (i <= j < i + n)%nat -> low_fds v' !!! j = low_fds v !!! j) ->
  flat_map (close_low v') (seq i n) = flat_map (close_low v) (seq i n).
Proof.
  revert i. induction n as [|n IH]; intros i H; [reflexivity|].
  cbn [seq flat_map]. rewrite IH by (intros j Hj; apply H; lia).
  unfold close_low. rewrite (H i) by lia. reflexivity.
Qed.

(** The loop that opens the LOW cgroups, from index [i], the entries from
    [i] on being -1 as [main] set them: the descriptors it got are those
    the loop of [cleanup] closes. *)
Lemma open_low_cgroups_spec w paths : forall i v,
  (i + length paths <= length (low_fds v))%nat ->
  (forall j, (i <= j < i + length paths)%nat -> low_fds v !!! j = -1) ->
  let v' := snd (fst (open_low_cgroups w i paths v)) in
  let evs := snd (open_low_cgroups w i paths v) in
  high_fd v' = high_fd v /\
  length (low_fds v') = length (low_fds v) /\
  (forall j, (j < i)%nat -> low_fds v' !!! j = low_fds v !!! j) /\
  opened evs = flat_map (close_low v') (seq i (length paths)) /\
  closed evs = [].
Proof.
  induction paths as [|p paths IH]; intros i v Hlen Hfree; cbv zeta.
  - cbn. repeat split; reflexivity.
  - cbn [open_low_cgroups length] in *.
    unfold sbind at 1. unfold open_cgroup, sbind, emit, sret, assign.
    set (raw := sys_open w (S i) p).
    destruct (Z.ltb_spec raw 0) as [Hneg|Hpos]; cbn [fst snd app].
    + (* the open failed: -1 is stored and control goes to cleanup *)
      cbn. repeat split.
      * apply length_insert.
      * intros j Hj. apply list_lookup_total_insert_ne. lia.
      * replace (0 <=? raw) with false by (symmetry; apply Z.leb_gt; lia).
        rewrite flat_map_close_low_none; [|].
        -- unfold close_low. cbn [low_fds set_err set_low_fds].
           rewrite list_lookup_total_insert_eq by lia. reflexivity.
        -- intros j Hj. cbn [low_fds set_err set_low_fds].
           rewrite list_lookup_total_insert_ne by lia. apply Hfree. lia.
    + replace (raw <? 0) with false by (symmetry; apply Z.ltb_ge; lia).
      set (v1 := set_low_fds <[i:=raw]> v).
      assert (Hlen1 : (S i + length paths <= length (low_fds v1))%nat).
      { unfold v1. cbn [low_fds set_low_fds]. rewrite length_insert. lia. }
      assert (Hfree1 : forall j, (S i <= j < S i + length paths)%nat ->
                               low_fds v1 !!! j = -1).
      { intros j Hj. unfold v1. cbn [low_fds set_low_fds].
        rewrite list_lookup_total_insert_ne by lia. apply Hfree. lia. }
      specialize (IH (S i) v1 Hlen1 Hfree1). cbv zeta in IH.
      destruct IH as (Hh & Hl & Hkeep & Hop & Hcl).
      destruct (open_low_cgroups w (S i) paths v1) as [[r v'] evs].
      cbn [fst snd] in *.
      assert (low_fds v' !!! i = raw) as Hi.
      { rewrite Hkeep by lia. unfold v1. cbn [low_fds set_low_fds].
        apply list_lookup_total_insert_eq. lia. }
      repeat split.
      * exact Hh.
      * rewrite Hl. unfold v1. cbn [low_fds set_low_fds]. apply length_insert.
      * intros j Hj. rewrite Hkeep by lia. unfold v1. cbn [low_fds set_low_fds].
        apply list_lookup_total_insert_ne. lia.
      * cbn [seq flat_map]. change (opened (EvOpen p raw :: evs))
          with ((if 0 <=? raw then [raw] else []) ++ opened evs).
        rewrite Hop. unfold close_low at 2. rewrite Hi. reflexivity.
      * exact Hcl.
Qed.

Lemma initial_low_fds j :
  (j < Z.to_nat MAX_LOW_CGROUPS)%nat -> low_fds initial_vars !!! j = -1.
Proof. intros H. unfold initial_vars. cbn [low_fds]. now apply lookup_total_replicate_2. Qed.

Lemma open_cgroups_eq w o high_path v :
  open_cgroups w o high_path v =
  if sys_open w 0 high_path <? 0
  then (None, set_err 1 (set_high_fd (-1) v),
        [EvSignal SIGINT; EvSignal SIGTERM; EvSetPrint;
         EvOpen high_path (sys_open w 0 high_path)])
  else
    (fst (open_low_cgroups w 0 (opt_low_paths o)
            (set_high_fd (sys_open w 0 high_path) v)),
     [EvSignal SIGINT; EvSignal SIGTERM; EvSetPrint;
      EvOpen high_path (sys_open w 0 high_path)]
     ++ snd (open_low_cgroups w 0 (opt_low_paths o)
               (set_high_fd (sys_open w 0 high_path) v))).
Proof.
  unfold open_cgroups, open_cgroup, sbind, emit, sret, assign, goto_cleanup.
  destruct (sys_open w 0 high_path <? 0) eqn:E; cbn; [reflexivity|].
  rewrite E.
  destruct (open_low_cgroups w 0 (opt_low_paths o)
              (set_high_fd (sys_open w 0 high_path) v)) as [[r v'] evs].
  reflexivity.
Qed.

(** What [open_cgroups] got from [open] is what [cleanup] closes. *)
Lemma open_cgroups_spec w o high_path :
  Z.of_nat (length (opt_low_paths o)) <= MAX_LOW_CGROUPS ->
  let v' := snd (fst (open_cgroups w o high_path initial_vars)) in
  let evs := snd (open_cgroups w o high_path initial_vars) in
  opened evs = closed (cleanup (length (opt_low_paths o)) v') /\
  closed evs = [].
Proof.
  intros Hlen. cbv zeta. rewrite closed_cleanup, open_cgroups_eq.
  set (raw := sys_open w 0 high_path).
  destruct (Z.ltb_spec raw 0) as [Hneg|Hpos]; cbn [fst snd].
  - cbn. replace (0 <=? raw) with false by (symmetry; apply Z.leb_gt; lia).
    split; [|reflexivity].
    rewrite flat_map_close_low_none; [reflexivity|].
    intros j Hj. apply initial_low_fds. unfold MAX_LOW_CGROUPS in *. lia.
  - set (v1 := set_high_fd raw initial_vars).
    assert (Hlen1 : (0 + length (opt_low_paths o) <= length (low_fds v1))%nat).
    { unfold v1, initial_vars. cbn [low_fds set_high_fd].
      rewrite length_replicate. unfold MAX_LOW_CGROUPS in *. lia. }
    assert (Hfree1 : forall j, (0 <= j < 0 + length (opt_low_paths o))%nat ->
                               low_fds v1 !!! j = -1).
    { intros j Hj. unfold v1. cbn [low_fds set_high_fd].
      apply initial_low_fds. unfold MAX_LOW_CGROUPS in *. lia. }
    pose proof (open_low_cgroups_spec w (opt_low_paths o) 0%nat v1 Hlen1 Hfree1) as H.
    cbv zeta in H. destruct H as (Hh & _ & _ & Hop & Hcl).
    destruct (open_low_cgroups w 0 (opt_low_paths o) v1) as [[r v'] evs].
    cbn [fst snd] in *.
    rewrite Hh. unfold v1 at 1 2. cbn [high_fd set_high_fd].
    rewrite opened_app, closed_app, Hop, Hcl. cbn [opened closed flat_map app].
    replace (0 <=? raw) with true by (symmetry; apply Z.leb_le; lia).
    split; reflexivity.
Qed.

Lemma default_options_ok : options_ok default_options.
Proof.
  unfold options_ok, default_options, MAX_LOW_CGROUPS, DEFAULT_DELAY_MS,
    DEFAULT_THRESHOLD. cbn. lia.
Qed.

(** X14. [main] closes the descriptors it opened: whatever the command line and
    whatever the calls return, the descriptors closed are exactly those
    [open] gave, in the same order, each once. *)
Theorem main_closes_what_it_opened (atoi strtoull : string -> Z) (w : env)
    (toks : list (Z * string)) :
  closed (fst (main atoi strtoull w toks)) =
  opened (fst (main atoi strtoull w toks)).
Proof.
  unfold main.
  destruct (parse_options atoi strtoull toks default_options) as [code|o] eqn:Hp;
    [reflexivity|].
  destruct (opt_high_path o) as [high_path|]; [|reflexivity].
  pose proof (parse_options_ok _ _ _ _ _ default_options_ok Hp) as (Hlen & _).
  destruct (main_setup w o high_path initial_vars) as [[r v] log] eqn:E.
  cbn [fst].
  unfold main_setup in E. unfold sbind at 1 in E.
  destruct (open_cgroups_spec w o high_path Hlen) as [Hop Hcl].
  destruct (open_cgroups w o high_path initial_vars) as [[[[]|] v1] evs1];
    cbn [fst snd] in *.
  - destruct (after_open_fds w o high_path v1) as [[Hh Hl] [Hop2 Hcl2]].
    destruct (sbind (configure_and_load w o high_path)
                (fun _ => sbind (attach_all w o) (fun _ => report w)) v1)
      as [[r2 v2] evs2].
    cbn [fst snd] in *. injection E as <- <- <-.
    rewrite !closed_app, !opened_app, Hcl, Hcl2, Hop2, opened_cleanup, Hop.
    rewrite !app_nil_r. cbn [app].
    rewrite !closed_cleanup, Hh. f_equal.
    apply flat_map_close_low_ext. intros j _. now rewrite Hl.
  - injection E as <- <- <-.
    rewrite closed_app, opened_app, Hcl, opened_cleanup, Hop.
    now rewrite app_nil_r.
Qed.

(** ** The configuration that is loaded *)

Lemma loaded_app l1 l2 : loaded (l1 ++ l2) = loaded l1 ++ loaded l2.
Proof. apply flat_map_app. Qed.

Lemma no_load_app l1 l2 : no_load l1 -> no_load l2 -> no_load (l1 ++ l2).
Proof. unfold no_load. intros H1 H2. now rewrite loaded_app, H1, H2. Qed.

Lemma any_vars_refl v : any_vars v v.
Proof. exact I. Qed.

Lemma any_vars_trans v1 v2 v3 : any_vars v1 v2 -> any_vars v2 v3 -> any_vars v1 v3.
Proof. intros _ _. exact I. Qed.

Lemma no_load_nil : no_load [].
Proof. reflexivity. Qed.

Ltac load_frame := frame any_vars_refl any_vars_trans no_load_nil no_load_app.

Lemma open_low_cgroups_no_load w paths : forall i,
  preserves any_vars no_load (open_low_cgroups w i paths).
Proof.
  induction paths as [|p paths IH]; intros i; cbn [open_low_cgroups];
    unfold open_cgroup; load_frame.
  apply IH.
Qed.

Lemma attach_low_cgroups_no_load w paths : forall i,
  preserves any_vars no_load (attach_low_cgroups w i paths).
Proof.
  induction paths as [|p paths IH]; intros i; cbn [attach_low_cgroups]; load_frame.
  apply IH.
Qed.

Lemma report_loop_no_load n : preserves any_vars no_load (report_loop n).
Proof.
  induction n as [|n IH]; cbn [report_loop]; unfold lookup_stats; load_frame.
  apply IH.
Qed.

Lemma open_cgroups_no_load w o high_path :
  preserves any_vars no_load (open_cgroups w o high_path).
Proof.
  unfold open_cgroups, open_cgroup. load_frame. apply open_low_cgroups_no_load.
Qed.



Lemma after_load_no_load w o :
  preserves any_vars no_load (sbind (attach_all w o) (fun _ => report w)).
Proof.
  unfold attach_all, report, lookup_stats. load_frame.
  - apply attach_low_cgroups_no_load.
  - apply report_loop_no_load.
Qed.

Lemma loaded_cleanup n v : loaded (cleanup n v) = [].
Proof.
  unfold cleanup. rewrite !loaded_app. cbn [loaded flat_map app].
  assert (loaded (map (fun i => EvLinkDestroy (low_links v !!! i)) (seq 0 n)) = []) as ->.
  { induction (seq 0 n) as [|i l IH]; [reflexivity | exact IH]. }
  assert (loaded (if 0 <=? high_fd v then [EvClose (high_fd v)] else []) = []) as ->.
  { destruct (0 <=? high_fd v); reflexivity. }
  cbn [app].
  induction (seq 0 n) as [|i l IH]; [reflexivity|].
  cbn [flat_map]. rewrite loaded_app, IH.
  destruct (0 <=? low_fds v !!! i); reflexivity.
Qed.

(** What [configure_and_load] loads, if it gets that far. *)
Lemma configure_and_load_loaded w o high_path v :
  loaded (snd (configure_and_load w o high_path v)) = [] \/
  exists st_ino,
    sys_stat w high_path = Some st_ino /\
    U64.wrap st_ino <> 0 /\
    loaded (snd (configure_and_load w o high_path v)) =
    [({| high_cgroup_id := U64.wrap st_ino;
         threshold := opt_threshold o;
         over_high_ms := opt_delay_ms o;
         use_below_low := to_u8 (opt_use_below_low o);
         use_below_min := to_u8 (opt_use_below_min o) |}, skel_load w)].
Proof.
  unfold configure_and_load, get_cgroup_id, sbind, emit, sret, assign, read,
    goto_cleanup.
  destruct (skel_open w =? 0); [left; reflexivity|].
  destruct (sys_stat w high_path) as [st_ino|]; [|left; reflexivity].
  destruct (Z.eqb_spec (U64.wrap st_ino) 0) as [E|E]; [left; reflexivity|].
  right. exists st_ino. split; [reflexivity|]. split; [exact E|].
  destruct (skel_load w =? 0); reflexivity.
Qed.

Lemma to_u8_flag x : x = 0 \/ x = 1 -> to_u8 x = x.
Proof. intros [-> | ->]; reflexivity. Qed.

(** X15. The configuration the BPF programs are loaded with. Whenever [main]
    calls [memcg_priority__load], it does so once, with [local_config] set
    from the command line: [high_cgroup_id] is the inode number [stat] gave
    for the [--high] path and is not 0, [threshold] and [over_high_ms] are
    the values of the options, the two flags are 0 or 1, and every field is
    a value of its type ([wf_config]). *)
Theorem main_loads_well_formed_config (atoi strtoull : string -> Z) (w : env)
    (toks : list (Z * string)) (cfg : memcg_priority_config) (e : Z) :
  In (cfg, e) (loaded (fst (main atoi strtoull w toks))) ->
  loaded (fst (main atoi strtoull w toks)) = [(cfg, e)] /\
  e = skel_load w /\
  wf_config cfg /\
  high_cgroup_id cfg <> 0 /\
  exists o high_path st_ino,
    parse_options atoi strtoull toks default_options = ParseDone o /\
    opt_high_path o = Some high_path /\
    sys_stat w high_path = Some st_ino /\
    cfg = {| high_cgroup_id := U64.wrap st_ino;
             threshold := opt_threshold o;
             over_high_ms := opt_delay_ms o;
             use_below_low := opt_use_below_low o;
             use_below_min := opt_use_below_min o |} /\
    (opt_use_below_low o = 0 \/ opt_use_below_low o = 1) /\
    (opt_use_below_min o = 0 \/ opt_use_below_min o = 1).
Proof.
  unfold main.
  destruct (parse_options atoi strtoull toks default_options) as [code|o] eqn:Hp;
    [intros []|].
  destruct (opt_high_path o) as [high_path|] eqn:Hhp; [|intros []].
  pose proof (parse_options_ok _ _ _ _ _ default_options_ok Hp)
    as (Hlen & Hd & Ht & Hl & Hm).
  destruct (main_setup w o high_path initial_vars) as [[r v] log] eqn:E.
  cbn [fst].
  assert (loaded (log ++ cleanup (length (opt_low_paths o)) v) = [] \/
          exists st_ino,
            sys_stat w high_path = Some st_ino /\ U64.wrap st_ino <> 0 /\
            loaded (log ++ cleanup (length (opt_low_paths o)) v) =
            [({| high_cgroup_id := U64.wrap st_ino;
                 threshold := opt_threshold o;
                 over_high_ms := opt_delay_ms o;
                 use_below_low := to_u8 (opt_use_below_low o);
                 use_below_min := to_u8 (opt_use_below_min o) |}, skel_load w)])
    as Hloaded.
  { rewrite loaded_app, loaded_cleanup, app_nil_r.
    unfold main_setup in E. unfold sbind at 1 in E.
    destruct (open_cgroups_no_load w o high_path initial_vars) as [_ H1].
    destruct (open_cgroups w o high_path initial_vars) as [[[[]|] v1] evs1];
      cbn [fst snd] in *.
    - unfold sbind at 1 in E.
      pose proof (configure_and_load_loaded w o high_path v1) as H2.
      destruct (configure_and_load w o high_path v1) as [[[[]|] v2] evs2];
        cbn [fst snd] in *.
      + destruct (after_load_no_load w o v2) as [_ H3].
        destruct (sbind (attach_all w o) (fun _ => report w) v2) as [[r3 v3] evs3].
        cbn [fst snd] in *. injection E as <- <- <-.
        unfold no_load in *. rewrite !loaded_app, H1, H3, app_nil_r. exact H2.
      + injection E as <- <- <-.
        unfold no_load in *. rewrite !loaded_app, H1. exact H2.
    - injection E as <- <- <-. left. exact H1. }
  intros Hin.
  destruct Hloaded as [Hnone | (st_ino & Hstat & Hid & Hone)].
  { rewrite Hnone in Hin. destruct Hin. }
  rewrite Hone in Hin |- *. rewrite !to_u8_flag in * by assumption.
  destruct Hin as [Heq|[]]. injection Heq as <- <-.
  split; [reflexivity|]. split; [reflexivity|]. split; [|split].
  - unfold wf_config. cbn.
    pose proof (u64_wrap_range st_ino) as Hr.
    unfold U64.in_range, U64.modulus in Hr.
    repeat split; try lia; destruct Hl as [-> | ->]; destruct Hm as [-> | ->]; lia.
  - exact Hid.
  - exists o, high_path, st_ino. repeat split; assumption.
Qed.

(** ** A return of 0 *)


Lemma attached_to_app l1 l2 :
  attached_to (l1 ++ l2) = attached_to l1 ++ attached_to l2.
Proof. apply flat_map_app. Qed.

Lemma attached_app l1 l2 : attached (l1 ++ l2) = attached l1 ++ attached l2.
Proof. apply flat_map_app. Qed.




Lemma attach_low_cgroups_cons w i p paths v :
  attach_low_cgroups w i (p :: paths) v =
  if attach_struct_ops w (S i) (ops_map v) (low_fds v !!! i) =? 0
  then (None,
        set_err 1
          (set_low_links
             <[i := attach_struct_ops w (S i) (ops_map v) (low_fds v !!! i)]> v),
        [EvAttachStructOps (ops_map v) (low_fds v !!! i)
           (attach_struct_ops w (S i) (ops_map v) (low_fds v !!! i))])
  else
    (fst (attach_low_cgroups w (S i) paths
            (set_low_links
               <[i := attach_struct_ops w (S i) (ops_map v) (low_fds v !!! i)]> v)),
     [EvAttachStructOps (ops_map v) (low_fds v !!! i)
        (attach_struct_ops w (S i) (ops_map v) (low_fds v !!! i))]
     ++ snd (attach_low_cgroups w (S i) paths
               (set_low_links
                  <[i := attach_struct_ops w (S i) (ops_map v) (low_fds v !!! i)]> v))).
Proof.
  cbn [attach_low_cgroups].
  unfold sbind, read, emit, assign, goto_cleanup. cbn [fst snd].
  destruct (attach_struct_ops w (S i) (ops_map v) (low_fds v !!! i) =? 0);
    [reflexivity|].
  destruct (attach_low_cgroups w (S i) paths _) as [[r v'] evs]. reflexivity.
Qed.


Lemma attach_all_eq w o v :
  attach_all w o v =
  let tp := attach_program w in
  let hm := find_map w "high_mcg_ops" in
  let hl := attach_struct_ops w 0 hm (high_fd v) in
  let lm := find_map w "low_mcg_ops" in
  if tp =? 0
  then (None, set_err 1 (set_tp_link tp v), [EvAttachProgram tp])
  else if hm =? 0
  then (None, set_err 1 (set_ops_map hm (set_tp_link tp v)),
        [EvAttachProgram tp; EvFindMap "high_mcg_ops" hm])
  else if hl =? 0
  then (None, set_err 1 (set_high_link hl (set_ops_map hm (set_tp_link tp v))),
        [EvAttachProgram tp; EvFindMap "high_mcg_ops" hm;
         EvAttachStructOps hm (high_fd v) hl])
  else if lm =? 0
  then (None,
        set_err 1 (set_ops_map lm
                     (set_high_link hl (set_ops_map hm (set_tp_link tp v)))),
        [EvAttachProgram tp; EvFindMap "high_mcg_ops" hm;
         EvAttachStructOps hm (high_fd v) hl; EvFindMap "low_mcg_ops" lm])
  else
    (fst (attach_low_cgroups w 0 (opt_low_paths o)
            (set_ops_map lm
               (set_high_link hl (set_ops_map hm (set_tp_link tp v))))),
     [EvAttachProgram tp; EvFindMap "high_mcg_ops" hm;
      EvAttachStructOps hm (high_fd v) hl; EvFindMap "low_mcg_ops" lm]
     ++ snd (attach_low_cgroups w 0 (opt_low_paths o)
               (set_ops_map lm
                  (set_high_link hl (set_ops_map hm (set_tp_link tp v)))))).
Proof.
  cbv zeta.
  unfold attach_all, sbind, read, emit, assign, sret, goto_cleanup.
  destruct (attach_program w =? 0); [reflexivity|]. cbn [fst snd].
  destruct (find_map w "high_mcg_ops" =? 0); [reflexivity|].
  cbn [fst snd high_fd ops_map set_ops_map set_tp_link].
  destruct (attach_struct_ops w 0 (find_map w "high_mcg_ops") (high_fd v) =? 0);
    [reflexivity|]. cbn [fst snd].
  destruct (find_map w "low_mcg_ops" =? 0); [reflexivity|].
  destruct (attach_low_cgroups w 0 (opt_low_paths o) _) as [[r v'] evs].
  reflexivity.
Qed.











Lemma cleanup_no_attach n v : no_attach (cleanup n v).
Proof.
  unfold cleanup, no_attach.
  rewrite !attached_to_app, !attached_app. cbn [attached_to attached flat_map app].
  assert (no_attach (map (fun i => EvLinkDestroy (low_links v !!! i)) (seq 0 n)))
    as [-> ->].
  { induction (seq 0 n) as [|i l IH]; [now split | exact IH]. }
  assert (no_attach (if 0 <=? high_fd v then [EvClose (high_fd v)] else []))
    as [-> ->].
  { destruct (0 <=? high_fd v); now split. }
  cbn [app].
  induction (seq 0 n) as [|i l [IH1 IH2]]; [now split|].
  cbn [flat_map]. rewrite attached_to_app, attached_app, IH1, IH2.
  destruct (0 <=? low_fds v !!! i); now split.
Qed.



(** ** Links and the skeleton *)

Lemma destroyed_app l1 l2 : destroyed (l1 ++ l2) = destroyed l1 ++ destroyed l2.
Proof. apply flat_map_app. Qed.

Lemma skel_opened_app l1 l2 : skel_opened (l1 ++ l2) = skel_opened l1 ++ skel_opened l2.
Proof. apply flat_map_app. Qed.

Lemma skel_destroyed_app l1 l2 :
  skel_destroyed (l1 ++ l2) = skel_destroyed l1 ++ skel_destroyed l2.
Proof. apply flat_map_app. Qed.

Lemma same_links_refl v : same_links v v.
Proof. repeat split. Qed.

Lemma same_links_trans v1 v2 v3 :
  same_links v1 v2 -> same_links v2 v3 -> same_links v1 v3.
Proof. intros (?&?&?&?) (?&?&?&?). repeat split; congruence. Qed.

Lemma no_link_calls_nil : no_link_calls [].
Proof. repeat split. Qed.

Lemma no_link_calls_app l1 l2 :
  no_link_calls l1 -> no_link_calls l2 -> no_link_calls (l1 ++ l2).
Proof.
  intros (H1&H2&H3&H4) (H5&H6&H7&H8). unfold no_link_calls.
  rewrite attached_app, destroyed_app, skel_opened_app, skel_destroyed_app.
  rewrite H1, H2, H3, H4, H5, H6, H7, H8. repeat split.
Qed.

Ltac link_frame :=
  frame same_links_refl same_links_trans no_link_calls_nil no_link_calls_app.

Lemma open_low_cgroups_links w paths : forall i,
  preserves same_links no_link_calls (open_low_cgroups w i paths).
Proof.
  induction paths as [|p paths IH]; intros i; cbn [open_low_cgroups];
    unfold open_cgroup; link_frame.
  apply IH.
Qed.

Lemma open_cgroups_links w o high_path :
  preserves same_links no_link_calls (open_cgroups w o high_path).
Proof.
  unfold open_cgroups, open_cgroup. link_frame. apply open_low_cgroups_links.
Qed.

Lemma report_loop_links n : preserves same_links no_link_calls (report_loop n).
Proof.
  induction n as [|n IH]; cbn [report_loop]; unfold lookup_stats; link_frame.
  apply IH.
Qed.

Lemma report_links w : preserves same_links no_link_calls (report w).
Proof. unfold report, lookup_stats. link_frame. apply report_loop_links. Qed.

Lemma destroyed_cleanup n v :
  destroyed (cleanup n v) =
  nonnull (tp_link v) ++ nonnull (high_link v)
  ++ flat_map (destroy_low v) (seq 0 n).
Proof.
  unfold cleanup. rewrite !destroyed_app.
  assert (destroyed [EvLinkDestroy (tp_link v); EvLinkDestroy (high_link v)]
          = nonnull (tp_link v) ++ nonnull (high_link v)) as ->.
  { unfold nonnull. cbn.
    destruct (tp_link v =? 0), (high_link v =? 0); reflexivity. }
  assert (destroyed (map (fun i => EvLinkDestroy (low_links v !!! i)) (seq 0 n))
          = flat_map (destroy_low v) (seq 0 n)) as ->.
  { induction (seq 0 n) as [|i l IH]; [reflexivity|].
    cbn [map flat_map]. rewrite <- IH. unfold destroy_low, nonnull.
    change (destroyed (EvLinkDestroy (low_links v !!! i)
                       :: map (fun i => EvLinkDestroy (low_links v !!! i)) l))
      with ((if low_links v !!! i =? 0 then [] else [low_links v !!! i])
            ++ destroyed (map (fun i => EvLinkDestroy (low_links v !!! i)) l)).
    reflexivity. }
  assert (destroyed (if 0 <=? high_fd v then [EvClose (high_fd v)] else []) = []) as ->.
  { destruct (0 <=? high_fd v); reflexivity. }
  assert (destroyed (flat_map (fun i => if 0 <=? low_fds v !!! i
                                         then [EvClose (low_fds v !!! i)] else [])
                       (seq 0 n)) = []) as ->.
  { induction (seq 0 n) as [|i l IH]; [reflexivity|].
    cbn [flat_map]. rewrite destroyed_app, IH.
    destruct (0 <=? low_fds v !!! i); reflexivity. }
  cbn [destroyed flat_map app]. now rewrite !app_nil_r, app_assoc.
Qed.

Lemma skel_destroyed_cleanup n v : skel_destroyed (cleanup n v) = nonnull (skel v).
Proof.
  unfold cleanup. rewrite !skel_destroyed_app. cbn [skel_destroyed flat_map app].
  assert (skel_destroyed (map (fun i => EvLinkDestroy (low_links v !!! i)) (seq 0 n)) = [])
    as ->.
  { induction (seq 0 n) as [|i l IH]; [reflexivity | exact IH]. }
  assert (skel_destroyed (if 0 <=? high_fd v then [EvClose (high_fd v)] else []) = []) as ->.
  { destruct (0 <=? high_fd v); reflexivity. }
  assert (skel_destroyed (flat_map (fun i => if 0 <=? low_fds v !!! i
                                              then [EvClose (low_fds v !!! i)] else [])
                            (seq 0 n)) = []) as ->.
  { induction (seq 0 n) as [|i l IH]; [reflexivity|].
    cbn [flat_map]. rewrite skel_destroyed_app, IH.
    destruct (0 <=? low_fds v !!! i); reflexivity. }
  cbn [app]. now rewrite !app_nil_r.
Qed.

Lemma cleanup_acquires_nothing n v :
  attached (cleanup n v) = [] /\ skel_opened (cleanup n v) = [].
Proof.
  split; [apply cleanup_no_attach|].
  unfold cleanup. rewrite !skel_opened_app. cbn [skel_opened flat_map app].
  assert (skel_opened (map (fun i => EvLinkDestroy (low_links v !!! i)) (seq 0 n)) = [])
    as ->.
  { induction (seq 0 n) as [|i l IH]; [reflexivity | exact IH]. }
  assert (skel_opened (if 0 <=? high_fd v then [EvClose (high_fd v)] else []) = []) as ->.
  { destruct (0 <=? high_fd v); reflexivity. }
  cbn [app].
  induction (seq 0 n) as [|i l IH]; [reflexivity|].
  cbn [flat_map]. rewrite skel_opened_app, IH.
  destruct (0 <=? low_fds v !!! i); reflexivity.
Qed.

Lemma flat_map_destroy_low_none v i n :
  (forall j, (i <= j < i + n)%nat -> low_links v !!! j = 0) ->
  flat_map (destroy_low v) (seq i n) = [].
Proof.
  revert i. induction n as [|n IH]; intros i H; [reflexivity|].
  cbn [seq flat_map]. rewrite IH by (intros j Hj; apply H; lia).
  unfold destroy_low. rewrite (H i) by lia. reflexivity.
Qed.

Lemma flat_map_destroy_low_ext v v' i n :
  low_links v' = low_links v ->
  flat_map (destroy_low v') (seq i n) = flat_map (destroy_low v) (seq i n).
Proof.
  intros E. apply flat_map_ext. intros j. unfold destroy_low. now rewrite E.
Qed.

(** The loop that attaches [low_mcg_ops], from index [i], the entries from
    [i] on being NULL: the links it got are those the loop of [cleanup]
    destroys. *)
Lemma attach_low_cgroups_spec w paths : forall i v,
  (i + length paths <= length (low_links v))%nat ->
  (forall j, (i <= j < i + length paths)%nat -> low_links v !!! j = 0) ->
  let v' := snd (fst (attach_low_cgroups w i paths v)) in
  let evs := snd (attach_low_cgroups w i paths v) in
  tp_link v' = tp_link v /\ high_link v' = high_link v /\ skel v' = skel v /\
  length (low_links v') = length (low_links v) /\
  (forall j, (j < i)%nat -> low_links v' !!! j = low_links v !!! j) /\
  attached evs = flat_map (destroy_low v') (seq i (length paths)) /\
  destroyed evs = [] /\ skel_opened evs = [] /\ skel_destroyed evs = [].
Proof.
  induction paths as [|p paths IH]; intros i v Hlen Hfree; cbv zeta.
  - cbn. repeat split; reflexivity.
  - rewrite attach_low_cgroups_cons. cbn [length] in *.
    set (link := attach_struct_ops w (S i) (ops_map v) (low_fds v !!! i)).
    destruct (Z.eqb_spec link 0) as [E|E]; cbn [fst snd].
    + cbn [tp_link high_link skel low_links set_err set_low_links].
      rewrite length_insert.
      repeat split.
      * intros j Hj. apply list_lookup_total_insert_ne. lia.
      * unfold attached at 1. cbn [flat_map app]. rewrite E. cbn [Z.eqb app].
        rewrite flat_map_destroy_low_none; [reflexivity|].
        intros j Hj. cbn [low_links set_err set_low_links].
        destruct (decide (j = i)) as [->|Hne].
        -- apply list_lookup_total_insert_eq. lia.
        -- rewrite list_lookup_total_insert_ne by lia. apply Hfree. lia.
    + set (v1 := set_low_links <[i:=link]> v).
      assert (Hlen1 : (S i + length paths <= length (low_links v1))%nat).
      { unfold v1. cbn [low_links set_low_links]. rewrite length_insert. lia. }
      assert (Hfree1 : forall j, (S i <= j < S i + length paths)%nat ->
                                 low_links v1 !!! j = 0).
      { intros j Hj. unfold v1. cbn [low_links set_low_links].
        rewrite list_lookup_total_insert_ne by lia. apply Hfree. lia. }
      specialize (IH (S i) v1 Hlen1 Hfree1). cbv zeta in IH.
      destruct IH as (Ht & Hh & Hs & Hl & Hkeep & Hat & Hde & Hso & Hsd).
      destruct (attach_low_cgroups w (S i) paths v1) as [[r v'] evs].
      cbn [fst snd] in *.
      assert (low_links v' !!! i = link) as Hi.
      { rewrite Hkeep by lia. unfold v1. cbn [low_links set_low_links].
        apply list_lookup_total_insert_eq. lia. }
      rewrite attached_app, destroyed_app, skel_opened_app, skel_destroyed_app.
      rewrite Hat, Hde, Hso, Hsd, Ht, Hh, Hs, Hl.
      unfold v1. cbn [tp_link high_link skel low_links set_low_links].
      rewrite length_insert.
      repeat split.
      * intros j Hj. rewrite Hkeep by lia. unfold v1. cbn [low_links set_low_links].
        apply list_lookup_total_insert_ne. lia.
      * cbn [seq flat_map attached app]. unfold destroy_low at 2.
        rewrite Hi, app_nil_r. reflexivity.
Qed.

Lemma no_links_initial n :
  Z.of_nat n <= MAX_LOW_CGROUPS -> no_links n initial_vars.
Proof.
  intros Hn. unfold no_links, initial_vars. cbn [tp_link high_link low_links].
  rewrite length_replicate. unfold MAX_LOW_CGROUPS in *.
  repeat split; try lia.
  intros j Hj. apply lookup_total_replicate_2. lia.
Qed.

Lemma no_links_same n v v' : same_links v v' -> no_links n v -> no_links n v'.
Proof.
  intros (Ht & Hh & Hl & _) (H1 & H2 & H3 & H4). unfold no_links.
  rewrite Ht, Hh, Hl. auto.
Qed.

Lemma destroyed_cleanup_no_links n v : no_links n v -> destroyed (cleanup n v) = [].
Proof.
  intros (Ht & Hh & _ & Hl). rewrite destroyed_cleanup, Ht, Hh.
  rewrite flat_map_destroy_low_none; [reflexivity|].
  intros j Hj. apply Hl. lia.
Qed.

(** The links [attach_all] got are those [cleanup] destroys. *)
Lemma attach_all_spec w o v :
  no_links (length (opt_low_paths o)) v ->
  let v' := snd (fst (attach_all w o v)) in
  let evs := snd (attach_all w o v) in
  attached evs = destroyed (cleanup (length (opt_low_paths o)) v') /\
  destroyed evs = [] /\
  skel v' = skel v /\ skel_opened evs = [] /\ skel_destroyed evs = [].
Proof.
  intros (Ht & Hh & Hlen & Hfree). cbv zeta.
  rewrite destroyed_cleanup, attach_all_eq. cbv zeta.
  assert (Hnone : flat_map (destroy_low v) (seq 0 (length (opt_low_paths o))) = []).
  { apply flat_map_destroy_low_none. intros j Hj. apply Hfree. lia. }
  destruct (Z.eqb_spec (attach_program w) 0) as [E1|E1]; cbn [fst snd].
  { cbn [tp_link high_link skel set_err set_tp_link].
    rewrite (flat_map_destroy_low_ext v _) by reflexivity.
    rewrite Hnone, Hh, E1. repeat split. }
  destruct (Z.eqb_spec (find_map w "high_mcg_ops") 0) as [E2|E2]; cbn [fst snd].
  { cbn [tp_link high_link skel set_err set_tp_link set_ops_map].
    rewrite (flat_map_destroy_low_ext v _) by reflexivity.
    rewrite Hnone, Hh. unfold attached, nonnull. cbn.
    apply Z.eqb_neq in E1. rewrite E1. repeat split. }
  set (hl := attach_struct_ops w 0 (find_map w "high_mcg_ops") (high_fd v)).
  destruct (Z.eqb_spec hl 0) as [E3|E3]; cbn [fst snd].
  { cbn [tp_link high_link skel set_err set_tp_link set_ops_map set_high_link].
    rewrite (flat_map_destroy_low_ext v _) by reflexivity.
    rewrite Hnone. unfold attached, nonnull. cbn.
    apply Z.eqb_neq in E1. rewrite E1, E3. repeat split. }
  destruct (Z.eqb_spec (find_map w "low_mcg_ops") 0) as [E4|E4]; cbn [fst snd].
  { cbn [tp_link high_link skel set_err set_tp_link set_ops_map set_high_link].
    rewrite (flat_map_destroy_low_ext v _) by reflexivity.
    rewrite Hnone. unfold attached, nonnull. cbn.
    apply Z.eqb_neq in E1, E3. rewrite E1, E3. repeat split. }
  set (v1 := set_ops_map _ _).
  assert (Hlen1 : (0 + length (opt_low_paths o) <= length (low_links v1))%nat)
    by exact Hlen.
  assert (Hfree1 : forall j, (0 <= j < 0 + length (opt_low_paths o))%nat ->
                             low_links v1 !!! j = 0).
  { intros j Hj. apply Hfree. lia. }
  pose proof (attach_low_cgroups_spec w (opt_low_paths o) 0%nat v1 Hlen1 Hfree1) as H.
  cbv zeta in H. destruct H as (Ht' & Hh' & Hs' & _ & _ & Hat & Hde & Hso & Hsd).
  destruct (attach_low_cgroups w 0 (opt_low_paths o) v1) as [[r v'] evs].
  cbn [fst snd] in *.
  rewrite attached_app, destroyed_app, skel_opened_app, skel_destroyed_app.
  rewrite Hat, Hde, Hso, Hsd, Ht', Hh', Hs'.
  unfold v1. cbn [tp_link high_link skel set_ops_map set_high_link set_tp_link].
  unfold attached, nonnull. cbn.
  apply Z.eqb_neq in E1, E3. rewrite E1, E3. repeat split.
Qed.

Lemma configure_and_load_links w o high_path v :
  let v' := snd (fst (configure_and_load w o high_path v)) in
  let evs := snd (configure_and_load w o high_path v) in
  tp_link v' = tp_link v /\ high_link v' = high_link v /\
  low_links v' = low_links v /\ skel v' = skel_open w /\
  attached evs = [] /\ destroyed evs = [] /\
  skel_opened evs = nonnull (skel_open w) /\ skel_destroyed evs = [].
Proof.
  cbv zeta.
  unfold configure_and_load, get_cgroup_id, sbind, emit, sret, assign, read,
    goto_cleanup.
  destruct (skel_open w =? 0) eqn:E0; [cbn; rewrite ?app_nil_r; repeat split|].
  destruct (sys_stat w high_path) as [st_ino|]; cbn;
    [|rewrite ?app_nil_r; repeat split].
  destruct (U64.wrap st_ino =? 0); cbn; [rewrite ?app_nil_r; repeat split|].
  destruct (skel_load w =? 0); cbn; rewrite ?app_nil_r; repeat split.
Qed.

(** X17. [main] destroys the links and the skeleton it got: whatever the command
    line and whatever the calls return, the links destroyed are exactly
    those the attachments gave, in the same order, each once, and the
    skeleton destroyed is the one that was opened. *)
Theorem main_destroys_what_it_attached (atoi strtoull : string -> Z) (w : env)
    (toks : list (Z * string)) :
  destroyed (fst (main atoi strtoull w toks)) =
  attached (fst (main atoi strtoull w toks)) /\
  skel_destroyed (fst (main atoi strtoull w toks)) =
  skel_opened (fst (main atoi strtoull w toks)).
Proof.
  unfold main.
  destruct (parse_options atoi strtoull toks default_options) as [code|o] eqn:Hp;
    [now split|].
  destruct (opt_high_path o) as [high_path|]; [|now split].
  pose proof (parse_options_ok _ _ _ _ _ default_options_ok Hp) as (Hlen & _).
  pose proof (no_links_initial _ Hlen) as Hinit.
  destruct (main_setup w o high_path initial_vars) as [[r v] log] eqn:E.
  cbn [fst].
  rewrite !destroyed_app, !attached_app, !skel_destroyed_app, !skel_opened_app.
  destruct (cleanup_acquires_nothing (length (opt_low_paths o)) v) as [-> ->].
  rewrite skel_destroyed_cleanup, !app_nil_r.
  unfold main_setup in E. unfold sbind at 1 in E.
  destruct (open_cgroups_links w o high_path initial_vars)
    as [Hsame1 (Hat1 & Hde1 & Hso1 & Hsd1)].
  destruct (open_cgroups w o high_path initial_vars) as [[[[]|] v1] evs1];
    cbn [fst snd] in *.
  2:{ injection E as <- <- <-.
      rewrite Hat1, Hde1, Hso1, Hsd1.
      rewrite (destroyed_cleanup_no_links _ _ (no_links_same _ _ _ Hsame1 Hinit)).
      destruct Hsame1 as (_ & _ & _ & ->). now split. }
  pose proof (no_links_same _ _ _ Hsame1 Hinit) as Hno1.
  unfold sbind at 1 in E.
  pose proof (configure_and_load_links w o high_path v1) as H2. cbv zeta in H2.
  destruct H2 as (Ht2 & Hh2 & Hl2 & Hs2 & Hat2 & Hde2 & Hso2 & Hsd2).
  destruct (configure_and_load w o high_path v1) as [[r2 v2] evs2];
    cbn [fst snd] in *.
  assert (no_links (length (opt_low_paths o)) v2) as Hno2.
  { destruct Hno1 as (H1 & H2 & H3 & H4). unfold no_links.
    rewrite Ht2, Hh2, Hl2. auto. }
  destruct r2 as [[]|].
  2:{ injection E as <- <- <-.
      rewrite !attached_app, !destroyed_app, !skel_opened_app, !skel_destroyed_app.
      rewrite Hat1, Hde1, Hso1, Hsd1, Hat2, Hde2, Hso2, Hsd2, Hs2.
      rewrite (destroyed_cleanup_no_links _ _ Hno2). now split. }
  unfold sbind at 1 in E.
  pose proof (attach_all_spec w o v2 Hno2) as H3. cbv zeta in H3.
  destruct H3 as (Hat3 & Hde3 & Hs3 & Hso3 & Hsd3).
  destruct (attach_all w o v2) as [[r3 v3] evs3]; cbn [fst snd] in *.
  destruct r3 as [[]|].
  2:{ injection E as <- <- <-.
      rewrite !attached_app, !destroyed_app, !skel_opened_app, !skel_destroyed_app.
      rewrite Hat1, Hde1, Hso1, Hsd1, Hat2, Hde2, Hso2, Hsd2, Hat3, Hde3, Hso3,
        Hsd3, Hs3, Hs2.
      rewrite !app_nil_r. now split. }
  destruct (report_links w v3) as [(Ht4 & Hh4 & Hl4 & Hs4) (Hat4 & Hde4 & Hso4 & Hsd4)].
  destruct (report w v3) as [[r4 v4] evs4]; cbn [fst snd] in *.
  injection E as <- <- <-.
  rewrite !attached_app, !destroyed_app, !skel_opened_app, !skel_destroyed_app.
  rewrite Hat1, Hde1, Hso1, Hsd1, Hat2, Hde2, Hso2, Hsd2, Hat3, Hde3, Hso3,
    Hsd3, Hat4, Hde4, Hso4, Hsd4, Hs4, Hs3, Hs2.
  rewrite !destroyed_cleanup, Ht4, Hh4.
  rewrite (flat_map_destroy_low_ext v3 v4) by exact Hl4.
  rewrite !app_nil_r. now split.
Qed.

(** ** Command lines [main] refuses *)

(** X18. A command line [main] refuses costs nothing but the message it
    prints (what [main] writes to [stderr] is not part of the record of
    calls): [main] returns with no signal handler installed, no cgroup
    opened and no call into libbpf made, at the first option that is
    [--help] (it returns 0), that is not an option of the program (1), or
    that is a [--low] after [MAX_LOW_CGROUPS] of them (1), whatever follows
    on the command line; and when the options end without a [--high] (1). *)
Theorem main_refuses_command_line (atoi strtoull : string -> Z) (w : env)
    (pre post : list (Z * string)) (opt : Z) (optarg : string) :
  Forall (fun tok => accepted tok = true) pre ->
  Z.of_nat (length (args_of "L" pre)) <= MAX_LOW_CGROUPS ->
  (opt = chr "h" ->
   main atoi strtoull w (pre ++ (opt, optarg) :: post) = ([], 0)) /\
  (accepted (opt, optarg) = false -> opt <> chr "h" ->
   main atoi strtoull w (pre ++ (opt, optarg) :: post) = ([], 1)) /\
  (opt = chr "L" -> Z.of_nat (length (args_of "L" pre)) = MAX_LOW_CGROUPS ->
   main atoi strtoull w (pre ++ (opt, optarg) :: post) = ([], 1)) /\
  (last_arg "H" pre = None -> main atoi strtoull w pre = ([], 1)).
Proof.
  intros Hacc Hlen.
  destruct (parse_options_stops atoi strtoull pre post opt optarg Hacc Hlen)
    as (Hh & Hu & Hl).
  unfold main. repeat split.
  - intros E. now rewrite (Hh E).
  - intros E1 E2. now rewrite (Hu E1 E2).
  - intros E1 E2. now rewrite (Hl E1 E2).
  - intros Hno.
    rewrite <- (app_nil_r pre) at 1.
    rewrite parse_options_app by assumption.
    cbn [parse_options]. unfold parsed_from at 1.
    cbn [opt_high_path default_options]. rewrite Hno. reflexivity.
Qed.

(** ** The loader's statements at sample inputs *)

Lemma parse_options_accepted_witness :
  parse_options sample_atoi sample_strtoull sample_toks default_options =
  ParseDone
    {| opt_high_path := Some "/sys/fs/cgroup/high";
       opt_low_paths := ["/sys/fs/cgroup/low1"; "/sys/fs/cgroup/low2"];
       opt_delay_ms := 2000;
       opt_threshold := 10;
       opt_use_below_low := 1;
       opt_use_below_min := 0;
       opt_verbose := 0 |}.
Proof.
  apply (parse_options_accepted sample_atoi sample_strtoull sample_toks).
  - repeat apply Forall_cons_2; try apply Forall_nil_2; reflexivity.
  - discriminate.
Defined.

Lemma parse_options_within_bounds_witness :
  options_ok
    {| opt_high_path := Some "/sys/fs/cgroup/high";
       opt_low_paths := ["/sys/fs/cgroup/low1"; "/sys/fs/cgroup/low2"];
       opt_delay_ms := 2000;
       opt_threshold := 10;
       opt_use_below_low := 1;
       opt_use_below_min := 0;
       opt_verbose := 0 |}.
Proof.
  apply (parse_options_within_bounds sample_atoi sample_strtoull sample_toks).
  reflexivity.
Defined.

Lemma main_refuses_command_line_witness :
  main sample_atoi sample_strtoull sample_env
    ([(chr "H", "/sys/fs/cgroup/high")] ++ (chr "h", "") :: sample_toks)
  = ([], 0) /\
  main sample_atoi sample_strtoull sample_env
    ([(chr "H", "/sys/fs/cgroup/high")] ++ (chr "x", "") :: sample_toks)
  = ([], 1) /\
  main sample_atoi sample_strtoull sample_env
    (((chr "H", "/sys/fs/cgroup/high")
      :: replicate 16 (chr "L", "/sys/fs/cgroup/low"))
     ++ (chr "L", "/sys/fs/cgroup/low17") :: [])
  = ([], 1) /\
  main sample_atoi sample_strtoull sample_env
    [(chr "L", "/sys/fs/cgroup/low1"); (chr "t", "10")]
  = ([], 1).
Proof.
  assert (Hhigh : Forall (fun tok => accepted tok = true)
                    [(chr "H", "/sys/fs/cgroup/high")]).
  { apply Forall_cons_2; [reflexivity | apply Forall_nil_2]. }
  assert (Hfull : Forall (fun tok => accepted tok = true)
                    ((chr "H", "/sys/fs/cgroup/high")
                     :: replicate 16 (chr "L", "/sys/fs/cgroup/low"))).
  { apply Forall_cons_2; [reflexivity | apply Forall_replicate; reflexivity]. }
  assert (Hnohigh : Forall (fun tok => accepted tok = true)
                      [(chr "L", "/sys/fs/cgroup/low1"); (chr "t", "10")]).
  { repeat apply Forall_cons_2; try apply Forall_nil_2; reflexivity. }
  assert (Hlen1 : Z.of_nat (length (args_of "L" [(chr "H", "/sys/fs/cgroup/high")]))
                  <= MAX_LOW_CGROUPS) by (vm_compute; discriminate).
  assert (Hlen16 : Z.of_nat (length (args_of "L"
                                ((chr "H", "/sys/fs/cgroup/high")
                                 :: replicate 16 (chr "L", "/sys/fs/cgroup/low"))))
                   = MAX_LOW_CGROUPS) by (vm_compute; reflexivity).
  assert (Hlen2 : Z.of_nat (length (args_of "L"
                               [(chr "L", "/sys/fs/cgroup/low1"); (chr "t", "10")]))
                  <= MAX_LOW_CGROUPS) by (vm_compute; discriminate).
  destruct (main_refuses_command_line sample_atoi sample_strtoull sample_env
              [(chr "H", "/sys/fs/cgroup/high")] sample_toks (chr "h") ""
              Hhigh Hlen1) as (Hhelp & _).
  destruct (main_refuses_command_line sample_atoi sample_strtoull sample_env
              [(chr "H", "/sys/fs/cgroup/high")] sample_toks (chr "x") ""
              Hhigh Hlen1) as (_ & Hunknown & _).
  destruct (main_refuses_command_line sample_atoi sample_strtoull sample_env
              ((chr "H", "/sys/fs/cgroup/high")
               :: replicate 16 (chr "L", "/sys/fs/cgroup/low"))
              [] (chr "L") "/sys/fs/cgroup/low17" Hfull
              (Z.eq_le_incl _ _ Hlen16)) as (_ & _ & Hmany & _).
  destruct (main_refuses_command_line sample_atoi sample_strtoull sample_env
              [(chr "L", "/sys/fs/cgroup/low1"); (chr "t", "10")]
              [] 0 "" Hnohigh Hlen2) as (_ & _ & _ & Hnone).
  split; [exact (Hhelp eq_refl)|].
  split; [apply Hunknown; [reflexivity | vm_compute; discriminate]|].
  split; [exact (Hmany eq_refl Hlen16)|].
  exact (Hnone eq_refl).
Defined.

Lemma main_loads_well_formed_config_witness :
  loaded (fst (main sample_atoi sample_strtoull sample_env sample_toks)) =
  [({| high_cgroup_id := 42; threshold := 10; over_high_ms := 2000;
       use_below_low := 1; use_below_min := 0 |}, 0)] /\
  0 = skel_load sample_env /\
  wf_config {| high_cgroup_id := 42; threshold := 10; over_high_ms := 2000;
               use_below_low := 1; use_below_min := 0 |} /\
  high_cgroup_id {| high_cgroup_id := 42; threshold := 10; over_high_ms := 2000;
                    use_below_low := 1; use_below_min := 0 |} <> 0 /\
  exists o high_path st_ino,
    parse_options sample_atoi sample_strtoull sample_toks default_options
    = ParseDone o /\
    opt_high_path o = Some high_path /\
    sys_stat sample_env high_path = Some st_ino /\
    {| high_cgroup_id := 42; threshold := 10; over_high_ms := 2000;
       use_below_low := 1; use_below_min := 0 |} =
    {| high_cgroup_id := U64.wrap st_ino;
       threshold := opt_threshold o;
       over_high_ms := opt_delay_ms o;
       use_below_low := opt_use_below_low o;
       use_below_min := opt_use_below_min o |} /\
    (opt_use_below_low o = 0 \/ opt_use_below_low o = 1) /\
    (opt_use_below_min o = 0 \/ opt_use_below_min o = 1).
Proof.
  apply (main_loads_well_formed_config sample_atoi sample_strtoull sample_env
           sample_toks
           {| high_cgroup_id := 42; threshold := 10; over_high_ms := 2000;
              use_below_low := 1; use_below_min := 0 |} 0).
  vm_compute. left. reflexivity.
Defined.

